(** * Document-permission synchronisation: fences, generator, validator, monitor

    A shallow embedding of
    [backend/ee/onyx/background/celery/tasks/doc_permission_syncing/tasks.py].

    - Redis is a finite map from keys to typed values ([gmap]); sets stored in
      Redis (the taskset, the [active_fences] index) are [gset]s.
    - Every task body is written in a state-and-exception monad [M] over a
      [World]: the Redis store, the broker queue of the generator lane, the
      monotonic clock and a chronological [trace] of the effects that leave
      the process (database calls, telemetry, task submission, sleeps) and of
      the writes to the fence keys.
    - Python exceptions are values of [exn]; [try]/[except]/[finally] are the
      combinators [try_except] and [try_finally].  State written before an
      exception is raised stays written.
    - Timestamps ([datetime], UTC) and readings of [time.monotonic] are
      integers counting microseconds.
    - Redis commands themselves are total: the store is taken to be
      reachable.  Collaborators outside this file (database helpers, the task
      queue, the per-source sync function) may raise; what they do is given
      by an environment [Env]. *)

From Stdlib Require Import ZArith QArith.
From stdpp Require Import base gmap strings list.

Local Open Scope Z_scope.

(** ** Data model *)

(** [DocumentSource] is a [str]-valued enum in the source. *)
Abbreviation DocumentSource := string (only parsing).

Inductive AccessType := PUBLIC | PRIVATE | SYNC.

(** Only [ACTIVE] is tested by this file; every other member of the enum is
    [OTHER_STATUS]. *)
Inductive ConnectorCredentialPairStatus :=
| ACTIVE
| OTHER_STATUS (name : string).

Inductive SyncStatus := IN_PROGRESS | SUCCESS | FAILED.
Inductive SyncType := EXTERNAL_PERMISSIONS.
Inductive RecordType := PERMISSION_SYNC_PROGRESS | PERMISSION_SYNC_COMPLETE.

#[global] Instance AccessType_eq_dec : EqDecision AccessType.
Proof. solve_decision. Defined.
#[global] Instance ConnectorCredentialPairStatus_eq_dec :
  EqDecision ConnectorCredentialPairStatus.
Proof. solve_decision. Defined.

Record ExternalAccess := {
  external_user_emails : gset string;
  external_user_group_ids : gset string;
  is_public : bool
}.

Record DocExternalAccess := {
  doc_id : string;
  external_access : ExternalAccess
}.

(** [RedisConnectorPermissionSyncPayload]; the field [id] is [payload_id]. *)
Record RedisConnectorPermissionSyncPayload := {
  payload_id : string;
  submitted : Z;
  started : option Z;
  celery_task_id : option string
}.

Record ConnectorCredentialPair := {
  cc_pair_id : Z;
  connector_id : Z;
  connector_source : DocumentSource;
  credential_id : Z;
  access_type : AccessType;
  status : ConnectorCredentialPairStatus;
  last_successful_index_time : option Z;
  last_time_perm_sync : option Z
}.

(** ** Exceptions and outcomes *)

Inductive exn :=
| ValueError (msg : string)
| ValidationError
| LockError
| RetryError (last : exn)
| OtherException (cls : string).

#[global] Instance exn_eq_dec : EqDecision exn.
Proof. solve_decision. Defined.

(** [Diverge] is what a loop bounded by fuel yields when the fuel runs out. *)
Inductive outcome (A : Type) :=
| Ok (a : A)
| Raise (e : exn)
| Diverge.
Arguments Ok {A} a.
Arguments Raise {A} e.
Arguments Diverge {A}.

(** ** Redis *)

Inductive redis_key :=
| FenceKey (cc : Z)
| ActiveKey (cc : Z)
| TasksetKey (cc : Z)
| GeneratorCompleteKey (cc : Z)
| DeleteFenceKey (cc : Z)
| PruneFenceKey (cc : Z)
| StopFenceKey (cc : Z)
| SyncLockKey (cc : Z)
| FunctionLockKey
| ActiveFencesKey.

#[global] Instance redis_key_eq_dec : EqDecision redis_key.
Proof. solve_decision. Defined.

Definition redis_key_code (k : redis_key) : nat * Z :=
  match k with
  | FenceKey cc => (0%nat, cc)
  | ActiveKey cc => (1%nat, cc)
  | TasksetKey cc => (2%nat, cc)
  | GeneratorCompleteKey cc => (3%nat, cc)
  | DeleteFenceKey cc => (4%nat, cc)
  | PruneFenceKey cc => (5%nat, cc)
  | StopFenceKey cc => (6%nat, cc)
  | SyncLockKey cc => (7%nat, cc)
  | FunctionLockKey => (8%nat, 0)
  | ActiveFencesKey => (9%nat, 0)
  end.

Definition redis_key_of_code (c : nat * Z) : redis_key :=
  match c with
  | (0%nat, cc) => FenceKey cc
  | (1%nat, cc) => ActiveKey cc
  | (2%nat, cc) => TasksetKey cc
  | (3%nat, cc) => GeneratorCompleteKey cc
  | (4%nat, cc) => DeleteFenceKey cc
  | (5%nat, cc) => PruneFenceKey cc
  | (6%nat, cc) => StopFenceKey cc
  | (7%nat, cc) => SyncLockKey cc
  | (8%nat, _) => FunctionLockKey
  | _ => ActiveFencesKey
  end.

#[global] Instance redis_key_countable : Countable redis_key.
Proof.
  apply (inj_countable' redis_key_code redis_key_of_code). by intros [].
Defined.

(** What is stored under the fence key: JSON that validates as a payload, or
    bytes that do not ([model_validate_json] raises [ValidationError]). *)
Inductive fence_value :=
| Parsed (p : RedisConnectorPermissionSyncPayload)
| Unparseable (raw : string).

(** Who holds a Redis lock: the lock object of the running function, or some
    other process. *)
Inductive holder := ThisTask | OtherProcess.

#[global] Instance holder_eq_dec : EqDecision holder.
Proof. solve_decision. Defined.

Inductive redis_value :=
| VFence (fv : fence_value)
| VFlag
| VInt (n : Z)
| VTasks (s : gset string)
| VKeys (s : gset redis_key)
| VLock (h : holder).

Abbreviation Redis := (gmap redis_key redis_value).

(** ** Effects *)

(** Calls that leave the process, and writes to the fence keys, in the order
    they happen. *)
Inductive event :=
| ESetFence (cc : Z) (p : option RedisConnectorPermissionSyncPayload)
| ESetActive (cc : Z)
| EGeneratorClear (cc : Z)
| ETasksetClear (cc : Z)
| ESetGeneratorComplete (cc : Z) (n : Z)
| EReset (cc : Z)
| ELockAcquire (k : redis_key)
| ELockReacquire (k : redis_key)
| ELockRelease (k : redis_key)
| EInsertSyncRecord (cc : Z) (ty : SyncType)
| EMarkSynced (cc : Z) (start_time : option Z)
| EUpdateSyncRecord (cc : Z) (ty : SyncType) (st : SyncStatus) (num_docs_synced : Z)
| ETelemetry (rt : RecordType) (cc : Z) (total_docs_synced remaining : option Z)
| ESendTask (task_id : string) (cc : Z)
| EGetCcPair (cc : Z)
| EValidateCcpair (cc : Z)
| EDocSyncCall (cc : Z)
| EProduced (d : DocExternalAccess)
| EExhausted
| EUpdateDb (d : DocExternalAccess)
| ESleep (seconds : Z)
| EBatchAddUsers (emails : list string)
| EUpsertExternalPerms (doc : string) (access : ExternalAccess) (source : DocumentSource)
| EUpsertByCcPair (connector credential : Z) (document_ids : list string)
| ERetry (attempt_number : nat) (e : exn) (seconds_since_start : Z) (wait : Z).

Record World := mkWorld {
  redis : Redis;
  celery_queue : gset string;
  trace : list event;
  monotonic : Z
}.

Definition M (A : Type) : Type := World → outcome A * World.

Definition ret {A} (a : A) : M A := fun w => (Ok a, w).

Definition raise {A} (e : exn) : M A := fun w => (Raise e, w).

Definition bind {A B} (m : M A) (k : A → M B) : M B :=
  fun w =>
    match m w with
    | (Ok a, w') => k a w'
    | (Raise e, w') => (Raise e, w')
    | (Diverge, w') => (Diverge, w')
    end.

Declare Scope py_scope.
Delimit Scope py_scope with py.
Notation "x <- m ;; k" := (bind m (fun x => k))
  (at level 100, m at next level, right associativity) : py_scope.
Notation "m ;; k" := (bind m (fun _ => k))
  (at level 100, right associativity) : py_scope.
Local Open Scope py_scope.

(** [try: body except Exception as e: handler e]. *)
Definition try_except {A} (body : M A) (handler : exn → M A) : M A :=
  fun w =>
    match body w with
    | (Raise e, w') => handler e w'
    | r => r
    end.

(** [try: body finally: fin]: the [finally] clause runs on return and on
    raise; an exception of the clause itself replaces the pending outcome. *)
Definition try_finally {A} (body : M A) (fin : M unit) : M A :=
  fun w =>
    match body w with
    | (Diverge, w') => (Diverge, w')
    | (r, w') =>
        match fin w' with
        | (Ok _, w'') => (r, w'')
        | (Raise e, w'') => (Raise e, w'')
        | (Diverge, w'') => (Diverge, w'')
        end
    end.

Definition get_redis : M Redis := fun w => (Ok (redis w), w).

Definition modify_redis (f : Redis → Redis) : M unit :=
  fun w => (Ok tt, mkWorld (f (redis w)) (celery_queue w) (trace w) (monotonic w)).

Definition emit (e : event) : M unit :=
  fun w => (Ok tt, mkWorld (redis w) (celery_queue w) (trace w ++ [e]) (monotonic w)).

Definition time_monotonic : M Z := fun w => (Ok (monotonic w), w).

Definition advance_clock (dt : Z) : M unit :=
  fun w => (Ok tt, mkWorld (redis w) (celery_queue w) (trace w) (monotonic w + dt)).

Definition enqueue (task_id : string) : M unit :=
  fun w => (Ok tt, mkWorld (redis w) ({[task_id]} ∪ celery_queue w) (trace w) (monotonic w)).

(** The part of a run that the code does not decide. *)
Record Env := {
  (** whether a call to a collaborator raises *)
  faults : event → option exn;
  (** [datetime.now(timezone.utc)] *)
  now_utc : Z;
  (** row returned by [get_connector_credential_pair_from_id] *)
  db_cc_pair : Z → option ConnectorCredentialPair;
  (** [uuid4()] and [make_short_id()] *)
  uuid4 : string;
  make_short_id : string;
  (** whether a held function lock is freed within the blocking timeout *)
  lock_freed_in_time : bool;
  (** what other processes do to Redis during the [n]-th [sleep], and by how
      many microseconds that sleep overshoots *)
  sleep_interference : nat → Redis → Redis;
  sleep_overshoot : nat → N;
  (** the upserter, attempt by attempt: whether a database call raises,
      whether the upsert created the document row, how long the attempt
      takes, and the random number drawn for the wait that follows it *)
  attempt_faults : nat → event → option exn;
  created_new_doc : nat → bool;
  attempt_duration : nat → positive;
  random_draw : nat → N
}.

(** A call to a collaborator: recorded, then it returns or raises. *)
Definition with_trace (w : World) (events : list event) : World :=
  mkWorld (redis w) (celery_queue w) (trace w ++ events) (monotonic w).

Definition with_redis (w : World) (r : Redis) : World :=
  mkWorld r (celery_queue w) (trace w) (monotonic w).

Definition call (env : Env) (e : event) : M unit :=
  emit e ;;
  match faults env e with
  | Some x => raise x
  | None => ret tt
  end.

(** ** The fence store of one connector-credential pair

    [RedisConnector(tenant_id, cc_pair_id).permissions] and its siblings
    [.delete], [.prune], [.stop].  The class lives in
    [onyx/redis/redis_connector_doc_perm_sync.py]. *)

(** Modelled from the spec: [RedisConnector.get_id_from_fence_key] is not in
    this file; it resolves the connector-credential pair a fence key belongs
    to, and yields nothing for a key that is no fence key. *)
Definition get_id_from_fence_key (k : redis_key) : option Z :=
  match k with
  | FenceKey cc | DeleteFenceKey cc | PruneFenceKey cc | StopFenceKey cc => Some cc
  | _ => None
  end.

Definition exists_key (k : redis_key) : M bool :=
  r <- get_redis ;; ret (bool_decide (is_Some (r !! k))).

(** Modelled from the spec: [fenced() -> bool], the fence key exists. *)
Definition fenced (cc : Z) : M bool := exists_key (FenceKey cc).

Definition delete_fenced (cc : Z) : M bool := exists_key (DeleteFenceKey cc).
Definition prune_fenced (cc : Z) : M bool := exists_key (PruneFenceKey cc).
Definition stop_fenced (cc : Z) : M bool := exists_key (StopFenceKey cc).

(** What a reader finds under the fence key. *)
Inductive fence_state :=
| FenceAbsent
| FenceParsed (p : RedisConnectorPermissionSyncPayload)
| FenceInvalid.

Definition fence_state_of (cc : Z) (r : Redis) : fence_state :=
  match r !! FenceKey cc with
  | None => FenceAbsent
  | Some (VFence (Parsed p)) => FenceParsed p
  | Some _ => FenceInvalid
  end.

(** Modelled from the spec: [payload() -> Fence | none], decode the payload;
    fails when the stored payload cannot be parsed.  The failure is pydantic's
    [ValidationError], the exception the callers catch. *)
Definition payload (cc : Z) : M (option RedisConnectorPermissionSyncPayload) :=
  r <- get_redis ;;
  match fence_state_of cc r with
  | FenceAbsent => ret None
  | FenceParsed p => ret (Some p)
  | FenceInvalid => raise ValidationError
  end.

Definition srem (k : redis_key) (member : redis_key) (r : Redis) : Redis :=
  match r !! k with
  | Some (VKeys s) => <[k := VKeys (s ∖ {[member]})]> r
  | _ => r
  end.

Definition sadd (k : redis_key) (member : redis_key) (r : Redis) : Redis :=
  match r !! k with
  | Some (VKeys s) => <[k := VKeys ({[member]} ∪ s)]> r
  | _ => <[k := VKeys {[member]}]> r
  end.

(** Modelled from the spec: [set_fence(payload | none)] creates, overwrites or
    deletes the fence; on delete it also removes the entry from
    [active_fences] and clears [generator_complete] and [taskset]. *)
Definition set_fence (cc : Z) (p : option RedisConnectorPermissionSyncPayload) : M unit :=
  emit (ESetFence cc p) ;;
  match p with
  | None =>
      modify_redis (fun r =>
        delete (FenceKey cc)
          (delete (TasksetKey cc)
            (delete (GeneratorCompleteKey cc)
              (srem ActiveFencesKey (FenceKey cc) r))))
  | Some p =>
      modify_redis (fun r =>
        sadd ActiveFencesKey (FenceKey cc) (<[FenceKey cc := VFence (Parsed p)]> r))
  end.

(** Modelled from the spec: [set_active()] sets the [active] signal (the
    5-minute expiry is the store's doing). *)
Definition set_active (cc : Z) : M unit :=
  emit (ESetActive cc) ;;
  modify_redis (fun r => <[ActiveKey cc := VFlag]> r).

(** Modelled from the spec: [active() -> bool], existence of the signal. *)
Definition active (cc : Z) : M bool := exists_key (ActiveKey cc).

Definition active_fences_members (r : Redis) : gset redis_key :=
  match r !! ActiveFencesKey with
  | Some (VKeys s) => s
  | _ => ∅
  end.

Definition generator_complete_value (cc : Z) (r : Redis) : option Z :=
  match r !! GeneratorCompleteKey cc with
  | Some (VInt n) => Some n
  | _ => None
  end.

(** Modelled from the spec: [generator_complete], a single integer; null
    means the generator has not finished. *)
Definition generator_complete (cc : Z) : M (option Z) :=
  r <- get_redis ;; ret (generator_complete_value cc r).

Definition set_generator_complete (cc : Z) (n : Z) : M unit :=
  emit (ESetGeneratorComplete cc n) ;;
  modify_redis (fun r => <[GeneratorCompleteKey cc := VInt n]> r).

Definition generator_clear (cc : Z) : M unit :=
  emit (EGeneratorClear cc) ;;
  modify_redis (fun r => delete (GeneratorCompleteKey cc) r).

Definition taskset_clear (cc : Z) : M unit :=
  emit (ETasksetClear cc) ;;
  modify_redis (fun r => delete (TasksetKey cc) r).

Definition taskset_members (cc : Z) (r : Redis) : gset string :=
  match r !! TasksetKey cc with
  | Some (VTasks s) => s
  | _ => ∅
  end.

(** Modelled from the spec: [get_remaining() -> int], the cardinality of the
    taskset. *)
Definition remaining_value (cc : Z) (r : Redis) : Z :=
  Z.of_nat (size (taskset_members cc r)).

Definition get_remaining (cc : Z) : M Z :=
  r <- get_redis ;; ret (remaining_value cc r).

(** Modelled from the spec: [reset()] deletes payload, active signal, taskset
    and [generator_complete], and removes the fence from [active_fences]. *)
Definition reset_keys (cc : Z) (r : Redis) : Redis :=
  delete (FenceKey cc)
    (delete (TasksetKey cc)
      (delete (GeneratorCompleteKey cc)
        (delete (ActiveKey cc)
          (srem ActiveFencesKey (FenceKey cc) r)))).

Definition reset (cc : Z) : M unit :=
  emit (EReset cc) ;; modify_redis (reset_keys cc).

(** ** Database and telemetry collaborators *)

Definition mark_cc_pair_as_permissions_synced (env : Env) (cc : Z) (start_time : option Z)
  : M unit :=
  call env (EMarkSynced cc start_time).

Definition update_sync_record_status (env : Env) (entity_id : Z) (sync_type : SyncType)
    (sync_status : SyncStatus) (num_docs_synced : Z) : M unit :=
  call env (EUpdateSyncRecord entity_id sync_type sync_status num_docs_synced).

Definition insert_sync_record (env : Env) (entity_id : Z) (sync_type : SyncType) : M unit :=
  call env (EInsertSyncRecord entity_id sync_type).

(** [optional_telemetry] hands the record to a background sender and
    returns. *)
Definition optional_telemetry (record_type : RecordType) (cc : Z)
    (total_docs_synced remaining : option Z) : M unit :=
  emit (ETelemetry record_type cc total_docs_synced remaining).

(** ** Progress monitor *)

Definition monitor_ccpair_permissions_taskset (env : Env) (key_bytes : redis_key) : M unit :=
  match get_id_from_fence_key key_bytes with
  | None => ret tt
  | Some cc_pair_id =>
      is_fenced <- fenced cc_pair_id ;;
      if negb is_fenced then ret tt else
      initial <- generator_complete cc_pair_id ;;
      match initial with
      | None => ret tt
      | Some initial =>
          parsed <- try_except
                      (p <- payload cc_pair_id ;; ret (Some p))
                      (fun e => match e with
                                | ValidationError => ret None
                                | _ => raise e
                                end) ;;
          match parsed with
          | None => ret tt
          | Some None => ret tt
          | Some (Some payload) =>
              remaining <- get_remaining cc_pair_id ;;
              optional_telemetry PERMISSION_SYNC_PROGRESS cc_pair_id
                (Some initial) (Some remaining) ;;
              if bool_decide (remaining > 0) then ret tt else
              mark_cc_pair_as_permissions_synced env cc_pair_id (started payload) ;;
              optional_telemetry PERMISSION_SYNC_COMPLETE cc_pair_id None None ;;
              update_sync_record_status env cc_pair_id EXTERNAL_PERMISSIONS SUCCESS initial ;;
              reset cc_pair_id
          end
      end
  end.

(** ** Fence validator *)

(** [celery_find_task(task_id, queue, r_celery)] for the generator lane. *)
Definition celery_find_task (task_id : string) : M bool :=
  fun w => (Ok (bool_decide (task_id ∈ celery_queue w)), w).

(** The scan of the taskset: [(tasks_scanned, tasks_not_in_celery)]. *)
Definition scan_taskset (queued_tasks reserved_tasks : gset string)
    (members : list string) : Z * Z :=
  foldl (fun '(tasks_scanned, tasks_not_in_celery) member_str =>
           if bool_decide (member_str ∈ queued_tasks)
           then (tasks_scanned + 1, tasks_not_in_celery)
           else if bool_decide (member_str ∈ reserved_tasks)
           then (tasks_scanned + 1, tasks_not_in_celery)
           else (tasks_scanned + 1, tasks_not_in_celery + 1))
        (0, 0) members.

Definition validate_permission_sync_fence (key_bytes : redis_key)
    (queued_tasks reserved_tasks : gset string) : M unit :=
  match get_id_from_fence_key key_bytes with
  | None => ret tt
  | Some cc_pair_id =>
      is_fenced <- fenced cc_pair_id ;;
      if negb is_fenced then ret tt else
      parsed <- try_except
                  (p <- payload cc_pair_id ;; ret (Some p))
                  (fun e => match e with
                            | ValidationError => reset cc_pair_id ;; ret None
                            | _ => raise e
                            end) ;;
      match parsed with
      | None => ret tt
      | Some None => ret tt
      | Some (Some payload) =>
          match celery_task_id payload with
          | None => ret tt
          | Some task_id =>
              if bool_decide (task_id = "") then ret tt else
              found <- celery_find_task task_id ;;
              if found then set_active cc_pair_id else
              if bool_decide (task_id ∈ reserved_tasks) then set_active cc_pair_id else
              r <- get_redis ;;
              let '(tasks_scanned, tasks_not_in_celery) :=
                scan_taskset queued_tasks reserved_tasks
                  (elements (taskset_members cc_pair_id r)) in
              if bool_decide (tasks_scanned > 0) && bool_decide (tasks_not_in_celery = 0)
              then set_active cc_pair_id else
              is_active <- active cc_pair_id ;;
              if is_active then ret tt else
              reset cc_pair_id
          end
      end
  end.

(** ** Redis locks ([redis.lock.Lock]) *)

Definition lock_owned (k : redis_key) : M bool :=
  r <- get_redis ;;
  ret (match r !! k with
       | Some (VLock ThisTask) => true
       | _ => false
       end).

Definition lock_take (k : redis_key) : M unit :=
  emit (ELockAcquire k) ;;
  modify_redis (fun r => <[k := VLock ThisTask]> r).

(** [lock.acquire(blocking=False)]. *)
Definition lock_acquire_nonblocking (k : redis_key) : M bool :=
  r <- get_redis ;;
  match r !! k with
  | None => lock_take k ;; ret true
  | Some _ => ret false
  end.

(** [lock.acquire(blocking_timeout=t)]: a free lock is taken at once; a held
    lock is waited for, up to [t] microseconds. *)
Definition lock_acquire_blocking (env : Env) (k : redis_key) (blocking_timeout : Z)
  : M bool :=
  r <- get_redis ;;
  match r !! k with
  | None => lock_take k ;; ret true
  | Some _ =>
      if lock_freed_in_time env
      then lock_take k ;; ret true
      else advance_clock blocking_timeout ;; ret false
  end.

(** [lock.reacquire()] raises [LockError] for a lock that is not owned. *)
Definition lock_reacquire (k : redis_key) : M unit :=
  owned <- lock_owned k ;;
  if owned then emit (ELockReacquire k) else raise LockError.

Definition lock_release (k : redis_key) : M unit :=
  owned <- lock_owned k ;;
  if owned
  then emit (ELockRelease k) ;; modify_redis (fun r => delete k r)
  else raise LockError.

(** [finally: if lock.owned(): lock.release()]. *)
Definition release_if_owned (k : redis_key) : M unit :=
  owned <- lock_owned k ;;
  if owned then lock_release k else ret tt.

(** ** Per-source sync configuration *)

(** What the lazy sequence returned by [doc_sync_func] does each time the
    generator asks for its next element: it may call the heartbeat, spend
    time in the source's API (during which the sync lock may expire), raise,
    or yield a record.  The end of the list is [StopIteration]. *)
Inductive pstep :=
| PYield (d : DocExternalAccess)
| PProgress (tag : string) (amount : Z)
| PElapse (dt : N)
| PLockLost
| PRaise (e : exn).

Inductive CensoringConfig := mkCensoringConfig.

Record DocSyncConfig := {
  doc_sync_frequency : Z;
  initial_index_should_sync : bool;
  doc_sync_func : ConnectorCredentialPair → list pstep
}.

Record SyncConfig := {
  doc_sync_config : option DocSyncConfig;
  censoring_config : option CensoringConfig
}.

(** [int(x)] of a number: truncation toward zero. *)
Definition py_int (x : Q) : Z := Z.quot (Qnum x) (Z.pos (Qden x)).

(** [timedelta(seconds=n)] in microseconds. *)
Definition timedelta_seconds (n : Z) : Z := n * 1000000.

Section Tasks.

(** [ee.onyx.external_permissions.sync_params.get_source_perm_sync_config]. *)
Variable get_source_perm_sync_config : DocumentSource → option SyncConfig.

(** Constants of [onyx.configs.constants], in seconds. *)
Variable CELERY_TASK_WAIT_FOR_FENCE_TIMEOUT : Z.
Variable CELERY_GENERIC_BEAT_LOCK_TIMEOUT : Z.

(** [RedisConnectorPermissionSync.generator_task_key]. *)
Variable generator_task_key : Z → string.

(** ** Due policy

    [now] is the reading of [datetime.now(timezone.utc)] and [multiplier] the
    value of [OnyxRuntime.get_doc_permission_sync_multiplier()]. *)
Definition _is_external_doc_permissions_sync_due (now : Z) (multiplier : Q)
    (cc_pair : ConnectorCredentialPair) : bool :=
  if negb (bool_decide (access_type cc_pair = SYNC)) then false else
  if negb (bool_decide (status cc_pair = ACTIVE)) then false else
  match get_source_perm_sync_config (connector_source cc_pair) with
  | None => false
  | Some sync_config =>
      match doc_sync_config sync_config with
      | None => false
      | Some dsc =>
          if initial_index_should_sync dsc
             && bool_decide (last_successful_index_time cc_pair = None)
          then false else
          match last_time_perm_sync cc_pair with
          | None => true
          | Some last_perm_sync =>
              let source_sync_period := doc_sync_frequency dsc in
              let source_sync_period := source_sync_period * py_int multiplier in
              let next_sync := last_perm_sync + timedelta_seconds source_sync_period in
              if bool_decide (now >= next_sync) then true else false
          end
      end
  end.

(** ** try_creating_permissions_sync_task *)

Definition LOCK_TIMEOUT : Z := 30.

(** [app.send_task(...)]: the task is put on the generator lane under the
    given id, which is also the id of the returned result. *)
Definition send_task (env : Env) (task_id : string) (cc : Z) : M string :=
  call env (ESendTask task_id cc) ;;
  enqueue task_id ;;
  ret task_id.

Definition try_creating_permissions_sync_task (env : Env) (cc_pair_id : Z)
  : M (option string) :=
  acquired <- lock_acquire_blocking env FunctionLockKey
                (LOCK_TIMEOUT * 1000000 / 2) ;;
  if negb acquired then ret None else
  try_finally
    (try_except
       (f <- fenced cc_pair_id ;;
        if f then ret None else
        f <- delete_fenced cc_pair_id ;;
        if f then ret None else
        f <- prune_fenced cc_pair_id ;;
        if f then ret None else
        generator_clear cc_pair_id ;;
        taskset_clear cc_pair_id ;;
        let custom_task_id := generator_task_key cc_pair_id +:+ "_" +:+ uuid4 env in
        try_except
          (insert_sync_record env cc_pair_id EXTERNAL_PERMISSIONS)
          (fun _ => ret tt) ;;
        set_active cc_pair_id ;;
        let payload := {| payload_id := make_short_id env;
                          submitted := now_utc env;
                          started := None;
                          celery_task_id := None |} in
        set_fence cc_pair_id (Some payload) ;;
        result_id <- send_task env custom_task_id cc_pair_id ;;
        let payload := {| payload_id := payload_id payload;
                          submitted := submitted payload;
                          started := started payload;
                          celery_task_id := Some result_id |} in
        set_fence cc_pair_id (Some payload) ;;
        ret (Some (payload_id payload)))
       (fun e => ret None))
    (release_if_owned FunctionLockKey).

(** ** Generator task *)

Definition sleep (env : Env) (n : nat) (seconds : Z) : M unit :=
  emit (ESleep seconds) ;;
  advance_clock (seconds * 1000000 + Z.of_N (sleep_overshoot env n)) ;;
  modify_redis (sleep_interference env n).

(** The fence readiness wait; [n] counts the sleeps so far. *)
Fixpoint wait_for_fence (env : Env) (cc : Z) (start : Z) (fuel n : nat)
  : M RedisConnectorPermissionSyncPayload :=
  match fuel with
  | O => fun w => (Diverge, w)
  | S fuel' =>
      now <- time_monotonic ;;
      if bool_decide (now - start > CELERY_TASK_WAIT_FOR_FENCE_TIMEOUT * 1000000)
      then raise (ValueError "timed out waiting for fence to be ready") else
      f <- fenced cc ;;
      if negb f then raise (ValueError "fence not found") else
      p <- payload cc ;;
      match p with
      | None => raise (ValueError "payload invalid or not found")
      | Some payload =>
          match celery_task_id payload with
          | None => sleep env n 1 ;; wait_for_fence env cc start fuel' (S n)
          | Some _ => ret payload
          end
      end
  end.

Record PermissionSyncCallback := {
  cb_started : Z;
  last_tag : string;
  last_lock_reacquire : Z;
  last_lock_monotonic : Z
}.

(** [PermissionSyncCallback.__init__]. *)
Definition new_callback (env : Env) (cc : Z) : M PermissionSyncCallback :=
  lock_reacquire (SyncLockKey cc) ;;
  now <- time_monotonic ;;
  ret {| cb_started := now_utc env;
         last_tag := "PermissionSyncCallback.__init__";
         last_lock_reacquire := now_utc env;
         last_lock_monotonic := now |}.

(** [PermissionSyncCallback.progress]; a [LockError] is logged and raised
    again. *)
Definition callback_progress (env : Env) (cc : Z) (cb : PermissionSyncCallback)
    (tag : string) (amount : Z) : M PermissionSyncCallback :=
  set_active cc ;;
  current_time <- time_monotonic ;;
  cb <- (if bool_decide (4 * (current_time - last_lock_monotonic cb)
                         >= CELERY_GENERIC_BEAT_LOCK_TIMEOUT * 1000000)
         then lock_reacquire (SyncLockKey cc) ;;
              now <- time_monotonic ;;
              ret {| cb_started := cb_started cb;
                     last_tag := last_tag cb;
                     last_lock_reacquire := now_utc env;
                     last_lock_monotonic := now |}
         else ret cb) ;;
  ret {| cb_started := cb_started cb;
         last_tag := tag;
         last_lock_reacquire := last_lock_reacquire cb;
         last_lock_monotonic := last_lock_monotonic cb |}.

(** Modelled from the spec: [permissions.update_db] is not in this file; for
    the one record it is given it invokes the ACL upserter synchronously, and
    the upserter's failure propagates. *)
Definition update_db (env : Env) (d : DocExternalAccess) : M unit :=
  call env (EUpdateDb d).

(** [for doc_external_access in document_external_accesses: ...]. *)
Fixpoint sync_loop (env : Env) (cc : Z) (steps : list pstep)
    (cb : PermissionSyncCallback) (tasks_generated : Z) : M Z :=
  match steps with
  | [] => emit EExhausted ;; ret tasks_generated
  | PYield d :: rest =>
      emit (EProduced d) ;;
      update_db env d ;;
      sync_loop env cc rest cb (tasks_generated + 1)
  | PProgress tag amount :: rest =>
      cb <- callback_progress env cc cb tag amount ;;
      sync_loop env cc rest cb tasks_generated
  | PElapse dt :: rest =>
      advance_clock (Z.of_N dt) ;;
      sync_loop env cc rest cb tasks_generated
  | PLockLost :: rest =>
      modify_redis (fun r => delete (SyncLockKey cc) r) ;;
      sync_loop env cc rest cb tasks_generated
  | PRaise e :: _ => raise e
  end.

(** The body of the [try] statement of the generator task. *)
Definition sync_body (env : Env) (cc_pair_id : Z) : M unit :=
  call env (EGetCcPair cc_pair_id) ;;
  match db_cc_pair env cc_pair_id with
  | None => raise (ValueError "No connector credential pair found")
  | Some cc_pair =>
      call env (EValidateCcpair cc_pair_id) ;;
      let source_type := connector_source cc_pair in
      match get_source_perm_sync_config source_type with
      | None => ret tt
      | Some sync_config =>
          match doc_sync_config sync_config with
          | None =>
              match censoring_config sync_config with
              | Some _ => ret tt
              | None => raise (ValueError "No doc sync func found")
              end
          | Some dsc =>
              p <- payload cc_pair_id ;;
              match p with
              | None => raise (ValueError "No fence payload found")
              | Some payload =>
                  let new_payload := {| payload_id := payload_id payload;
                                        submitted := submitted payload;
                                        started := Some (now_utc env);
                                        celery_task_id := celery_task_id payload |} in
                  set_fence cc_pair_id (Some new_payload) ;;
                  callback <- new_callback env cc_pair_id ;;
                  emit (EDocSyncCall cc_pair_id) ;;
                  tasks_generated <- sync_loop env cc_pair_id (doc_sync_func dsc cc_pair)
                                       callback 0 ;;
                  set_generator_complete cc_pair_id tasks_generated
              end
          end
      end
  end.

(** The [except Exception as e] clause of the generator task. *)
Definition sync_except (cc_pair_id : Z) (e : exn) : M unit :=
  generator_clear cc_pair_id ;;
  taskset_clear cc_pair_id ;;
  set_fence cc_pair_id None ;;
  raise e.

Definition connector_permission_sync_generator_task (env : Env) (fuel : nat)
    (cc_pair_id : Z) : M unit :=
  start <- time_monotonic ;;
  _ <- wait_for_fence env cc_pair_id start fuel 0 ;;
  acquired <- lock_acquire_nonblocking (SyncLockKey cc_pair_id) ;;
  if negb acquired then ret tt else
  try_finally
    (try_except (sync_body env cc_pair_id) (sync_except cc_pair_id))
    (release_if_owned (SyncLockKey cc_pair_id)).

(** ** ACL upserter *)

(** [onyx.db.utils.is_retryable_sqlalchemy_error]. *)
Variable is_retryable_sqlalchemy_error : exn → bool.

Definition DOCUMENT_PERMISSIONS_UPDATE_MAX_RETRIES : Z := 3.
Definition DOCUMENT_PERMISSIONS_UPDATE_STOP_AFTER : Z := 10 * 60.
Definition DOCUMENT_PERMISSIONS_UPDATE_MAX_WAIT : Z := 60.

(** The arguments of the [@retry] decorator, in seconds. *)
Record RetryPolicy := {
  retry_if_exception : exn → bool;
  wait_multiplier : Z;
  wait_max : Z;
  stop_after_delay : Z
}.

Definition document_update_permissions_policy : RetryPolicy :=
  {| retry_if_exception := is_retryable_sqlalchemy_error;
     wait_multiplier := 1;
     wait_max := DOCUMENT_PERMISSIONS_UPDATE_MAX_WAIT;
     stop_after_delay := DOCUMENT_PERMISSIONS_UPDATE_STOP_AFTER |}.

(** The largest wait after the attempt numbered [attempt_number] (from 1):
    [max(0, min(multiplier * 2 ** (attempt_number - 1), max))], in
    microseconds. *)
Definition wait_exponential_high (policy : RetryPolicy) (attempt_number : nat) : Z :=
  Z.max 0 (Z.min (wait_multiplier policy * 1000000 * 2 ^ (Z.of_nat attempt_number - 1))
                 (wait_max policy * 1000000)).

(** [wait_random_exponential]: [random.uniform(0, high)], the random number
    being [draw]. *)
Definition wait_random_exponential (policy : RetryPolicy) (attempt_number : nat)
    (draw : N) : Z :=
  Z.of_N draw `mod` (wait_exponential_high policy attempt_number + 1).

(** A database call of the attempt numbered [attempt_number]. *)
Definition db_call (env : Env) (attempt_number : nat) (e : event) : M unit :=
  emit e ;;
  match attempt_faults env attempt_number e with
  | Some x => raise x
  | None => ret tt
  end.

(** The body of [document_update_permissions]: one attempt. *)
Definition document_update_permissions_attempt (env : Env) (attempt_number : nat)
    (permissions : DocExternalAccess) (source_type_str : string)
    (connector_id credential_id : Z) : M bool :=
  let doc_id := doc_id permissions in
  let external_access := external_access permissions in
  advance_clock (Z.pos (attempt_duration env attempt_number)) ;;
  db_call env attempt_number
    (EBatchAddUsers (elements (external_user_emails external_access))) ;;
  db_call env attempt_number
    (EUpsertExternalPerms doc_id external_access source_type_str) ;;
  (if created_new_doc env attempt_number
   then db_call env attempt_number
          (EUpsertByCcPair connector_id credential_id [doc_id])
   else ret tt) ;;
  ret true.

(** The loop of tenacity's [Retrying.__call__], which the decorator wraps
    around the function: an attempt that returns ends the loop; an exception
    the predicate rejects is raised as it is; otherwise, once
    [stop_after_delay] seconds have passed since the start, [RetryError] is
    raised, and before that the loop sleeps and starts the next attempt. *)
Fixpoint retrying {A} (policy : RetryPolicy) (env : Env) (fn : nat → M A)
    (start_time : Z) (attempt_number : nat) (fuel : nat) : M A :=
  match fuel with
  | O => fun w => (Diverge, w)
  | S fuel' =>
      try_except (fn attempt_number)
        (fun e =>
           outcome_timestamp <- time_monotonic ;;
           let seconds_since_start := outcome_timestamp - start_time in
           if negb (retry_if_exception policy e) then raise e else
           if bool_decide (seconds_since_start >= stop_after_delay policy * 1000000)
           then raise (RetryError e) else
           let wait := wait_random_exponential policy attempt_number
                         (random_draw env attempt_number) in
           emit (ERetry attempt_number e seconds_since_start wait) ;;
           advance_clock wait ;;
           retrying policy env fn start_time (S attempt_number) fuel')
  end.

Definition document_update_permissions (env : Env) (fuel : nat)
    (permissions : DocExternalAccess) (source_type_str : string)
    (connector_id credential_id : Z) : M bool :=
  start_time <- time_monotonic ;;
  retrying document_update_permissions_policy env
    (fun attempt_number =>
       document_update_permissions_attempt env attempt_number permissions
         source_type_str connector_id credential_id)
    start_time 1 fuel.

End Tasks.

(** * Vocabulary of the properties *)

(** The world right after [lock.acquire] succeeded. *)
Definition after_lock_take (k : redis_key) (w : World) : World :=
  mkWorld (<[k := VLock ThisTask]> (redis w)) (celery_queue w)
    (trace w ++ [ELockAcquire k]) (monotonic w).

Definition lock_owned_in (k : redis_key) (r : Redis) : bool :=
  match r !! k with
  | Some (VLock ThisTask) => true
  | _ => false
  end.

(** Redis after [generator_clear(); taskset_clear(); set_fence(None)]. *)
Definition cleanup_keys (cc : Z) (r : Redis) : Redis :=
  delete (FenceKey cc)
    (delete (TasksetKey cc)
      (delete (GeneratorCompleteKey cc)
        (srem ActiveFencesKey (FenceKey cc)
           (delete (TasksetKey cc) (delete (GeneratorCompleteKey cc) r))))).

(** Nothing of the fence of [cc] is left. *)
Definition fence_cleared (cc : Z) (r : Redis) : Prop :=
  r !! FenceKey cc = None ∧ r !! ActiveKey cc = None
  ∧ r !! TasksetKey cc = None ∧ r !! GeneratorCompleteKey cc = None
  ∧ FenceKey cc ∉ active_fences_members r.

(** The taskset has members and each of them is queued or reserved. *)
Definition taskset_covered (queued_tasks reserved_tasks taskset : gset string) : Prop :=
  taskset ≠ ∅ ∧ taskset ⊆ queued_tasks ∪ reserved_tasks.

(** The records a producer yields, in order. *)
Definition yields (steps : list pstep) : list DocExternalAccess :=
  omap (fun s => match s with PYield d => Some d | _ => None end) steps.

(** Projections of a trace: records produced, records upserted, values
    written to [generator_complete]. *)
Definition produced (tr : list event) : list DocExternalAccess :=
  omap (fun e => match e with EProduced d => Some d | _ => None end) tr.

Definition upserts (tr : list event) : list DocExternalAccess :=
  omap (fun e => match e with EUpdateDb d => Some d | _ => None end) tr.

Definition complete_writes (tr : list event) : list Z :=
  omap (fun e => match e with ESetGeneratorComplete _ n => Some n | _ => None end) tr.

(** Every record is upserted right when it is produced, and nothing else is
    upserted. *)
Fixpoint synchronous (tr : list event) : Prop :=
  match tr with
  | [] => True
  | EProduced d :: EUpdateDb d' :: rest => d = d' ∧ synchronous rest
  | EProduced _ :: _ => False
  | EUpdateDb _ :: _ => False
  | _ :: rest => synchronous rest
  end.

(** How the fence readiness wait can end, given the reading [start] of the
    clock at its beginning and the timeout in seconds. *)
Definition wait_exit (timeout : Z) (cc : Z) (start : Z)
    (res : outcome RedisConnectorPermissionSyncPayload) (w' : World) : Prop :=
  match res with
  | Ok p =>
      fence_state_of cc (redis w') = FenceParsed p
      ∧ (∃ t, celery_task_id p = Some t)
      ∧ (monotonic w' - start <= timeout * 1000000)%Z
  | Raise e =>
      ((monotonic w' - start > timeout * 1000000)%Z
       ∧ e = ValueError "timed out waiting for fence to be ready")
      ∨ ((monotonic w' - start <= timeout * 1000000)%Z
         ∧ fence_state_of cc (redis w') = FenceAbsent
         ∧ e = ValueError "fence not found")
      ∨ ((monotonic w' - start <= timeout * 1000000)%Z
         ∧ fence_state_of cc (redis w') = FenceInvalid
         ∧ e = ValidationError)
  | Diverge => False
  end.

Section DuePolicy.

Variable get_source_perm_sync_config : DocumentSource → option SyncConfig.


(** The due policy in the words of the specification: the period is
    [doc_sync_frequency × runtime_multiplier] seconds. *)
Definition due_policy_as_specified (now : Z) (multiplier : Q)
    (cc_pair : ConnectorCredentialPair) : Prop :=
  access_type cc_pair = SYNC
  ∧ status cc_pair = ACTIVE
  ∧ ∃ sync_config dsc,
      get_source_perm_sync_config (connector_source cc_pair) = Some sync_config
      ∧ doc_sync_config sync_config = Some dsc
      ∧ (initial_index_should_sync dsc = true →
         last_successful_index_time cc_pair ≠ None)
      ∧ (last_time_perm_sync cc_pair = None
         ∨ ∃ last, last_time_perm_sync cc_pair = Some last
                   ∧ (inject_Z last
                      + inject_Z (timedelta_seconds (doc_sync_frequency dsc)) * multiplier
                      <= inject_Z now)%Q).

End DuePolicy.

(** ** Sample runs *)

Definition quiet_env : Env :=
  {| faults := fun _ => None;
     now_utc := 1700000000000000;
     db_cc_pair := fun _ => None;
     uuid4 := "5f0c";
     make_short_id := "abc123";
     lock_freed_in_time := false;
     sleep_interference := fun _ r => r;
     sleep_overshoot := fun _ => 0%N;
     attempt_faults := fun _ _ => None;
     created_new_doc := fun _ => false;
     attempt_duration := fun _ => 1%positive;
     random_draw := fun _ => 0%N |}.

Definition sample_payload : RedisConnectorPermissionSyncPayload :=
  {| payload_id := "abc123";
     submitted := 1699999990000000;
     started := Some 1699999995000000;
     celery_task_id := Some "permissionsync+generator_7_5f0c" |}.

Definition empty_world : World := mkWorld ∅ ∅ [] 0.

(** A fence whose generator has finished with three records. *)
Definition drained_world : World :=
  mkWorld (<[FenceKey 7 := VFence (Parsed sample_payload)]>
             (<[GeneratorCompleteKey 7 := VInt 3]> ∅)) ∅ [] 0.

(** The same with one subtask outstanding. *)
Definition draining_world : World :=
  mkWorld (<[TasksetKey 7 := VTasks {["upsert_1"]}]> (redis drained_world)) ∅ [] 0.

(** ** Validation of all fences *)

(** What the broker connection [r_celery] reports: the length of the upsert
    lane, the ids queued on it, and the ids reserved (prefetched, not yet
    acknowledged) on the generator lane. *)
Record CeleryInspection := {
  upsert_queue_length : Z;
  queued_upsert_tasks : gset string;
  reserved_generator_tasks : gset string
}.

Definition PERMISSION_SYNC_VALIDATION_MAX_QUEUE_LEN : Z := 1024.

(** [key_str.startswith(RedisConnectorPermissionSync.FENCE_PREFIX)]. *)
Definition is_permission_fence_key (k : redis_key) : bool :=
  match k with
  | FenceKey _ => true
  | _ => false
  end.

(** The loop of [validate_permission_sync_fences] over the members of
    [active_fences] as the replica returns them. *)
Fixpoint validate_fences_loop (insp : CeleryInspection) (lock_beat : redis_key)
    (keys : list redis_key) : M unit :=
  match keys with
  | [] => ret tt
  | key_bytes :: rest =>
      if negb (is_permission_fence_key key_bytes)
      then validate_fences_loop insp lock_beat rest
      else
        validate_permission_sync_fence key_bytes
          (queued_upsert_tasks insp) (reserved_generator_tasks insp) ;;
        lock_reacquire lock_beat ;;
        validate_fences_loop insp lock_beat rest
  end.

(** [lock_beat] is the Redis key of the beat lock the caller holds;
    [replica_keys] is [r_replica.smembers(ACTIVE_FENCES)]. *)
Definition validate_permission_sync_fences (insp : CeleryInspection)
    (replica_keys : list redis_key) (lock_beat : redis_key) : M unit :=
  let queue_len := upsert_queue_length insp in
  if bool_decide (queue_len > PERMISSION_SYNC_VALIDATION_MAX_QUEUE_LEN) then ret tt else
  lock_reacquire lock_beat ;;
  validate_fences_loop insp lock_beat replica_keys.

(** [PermissionSyncCallback.should_stop]. *)
Definition should_stop (cc : Z) : M bool :=
  f <- stop_fenced cc ;; if f then ret true else ret false.

(** ** More vocabulary *)

(** The world after [set_active] and after [reset]. *)
Definition after_set_active (cc : Z) (w : World) : World :=
  mkWorld (<[ActiveKey cc := VFlag]> (redis w)) (celery_queue w)
    (trace w ++ [ESetActive cc]) (monotonic w).

Definition after_reset (cc : Z) (w : World) : World :=
  mkWorld (reset_keys cc (redis w)) (celery_queue w)
    (trace w ++ [EReset cc]) (monotonic w).

(** The keys the fence store of [cc] writes. *)
Definition fence_store_key (cc : Z) (k : redis_key) : Prop :=
  k = FenceKey cc ∨ k = ActiveKey cc ∨ k = TasksetKey cc
  ∨ k = GeneratorCompleteKey cc ∨ k = ActiveFencesKey.

(** Events that write to Redis keys of the fence store. *)
Definition is_fence_write (e : event) : bool :=
  match e with
  | ESetFence _ _ | ESetActive _ | EGeneratorClear _ | ETasksetClear _
  | ESetGeneratorComplete _ _ | EReset _ => true
  | _ => false
  end.

(** What a retry record must satisfy under a policy: the exception was
    retryable, the stop delay had not passed, and the wait is within the
    exponential bound and the cap. *)
Definition retry_within_policy (retryable : exn → bool) (e : event) : Prop :=
  match e with
  | ERetry attempt_number x seconds_since_start wait =>
      retryable x = true
      ∧ (seconds_since_start < 600 * 1000000)%Z
      ∧ (0 <= wait)%Z
      ∧ (wait <= 60 * 1000000)%Z
      ∧ (wait <= 1000000 * 2 ^ (Z.of_nat attempt_number - 1))%Z
  | _ => True
  end.

(** Vocabulary for [try_creating_permissions_sync_task]: some lifecycle
    fence of the pair is set; the function lock can be taken (it is free, or
    freed within the blocking timeout); the payload the function writes; the
    writes of [set_fence(payload)]; and Redis after the lock is taken, the
    two clears and [set_active]. *)
Definition any_fence (cc : Z) (r : Redis) : Prop :=
  is_Some (r !! FenceKey cc) ∨ is_Some (r !! DeleteFenceKey cc)
  ∨ is_Some (r !! PruneFenceKey cc).

#[global] Instance any_fence_dec cc (r : Redis) : Decision (any_fence cc r).
Proof. unfold any_fence. apply _. Defined.

Definition lock_available (env : Env) (r : Redis) : Prop :=
  r !! FunctionLockKey = None ∨ lock_freed_in_time env = true.

Definition creation_payload (env : Env) (task_id : option string)
  : RedisConnectorPermissionSyncPayload :=
  {| payload_id := make_short_id env;
     submitted := now_utc env;
     started := None;
     celery_task_id := task_id |}.

Definition fence_written (cc : Z) (p : RedisConnectorPermissionSyncPayload) (r : Redis)
  : Redis :=
  sadd ActiveFencesKey (FenceKey cc) (<[FenceKey cc := VFence (Parsed p)]> r).

Definition creation_prepared (cc : Z) (r : Redis) : Redis :=
  <[ActiveKey cc := VFlag]>
    (delete (TasksetKey cc)
       (delete (GeneratorCompleteKey cc) (<[FunctionLockKey := VLock ThisTask]> r))).

(** ** More sample runs *)

(** A fence whose generator task is neither queued nor reserved, with no
    active signal: the worker crashed and the signal expired. *)
Definition crashed_world : World :=
  mkWorld (<[FenceKey 7 := VFence (Parsed sample_payload)]> ∅) ∅ [] 0.

(** The same fence while the generator task still waits in the queue. *)
Definition queued_world : World :=
  mkWorld (redis crashed_world) {["permissionsync+generator_7_5f0c"]} [] 0.

(** The same fence with a live active signal. *)
Definition live_world : World :=
  mkWorld (<[ActiveKey 7 := VFlag]> (redis crashed_world)) ∅ [] 0.

(** A fence written under an older schema, with a live active signal. *)
Definition stale_schema_world : World :=
  mkWorld (<[FenceKey 7 := VFence (Unparseable "{}")]>
             (<[ActiveKey 7 := VFlag]> ∅)) ∅ [] 0.

(** A pair of source [google_drive], two records its producer yields, and a
    registry in which [google_drive] syncs documents, [salesforce] only
    censors and [web] is registered with neither. *)
Definition sample_cc_pair : ConnectorCredentialPair :=
  {| cc_pair_id := 7;
     connector_id := 3;
     connector_source := "google_drive";
     credential_id := 5;
     access_type := SYNC;
     status := ACTIVE;
     last_successful_index_time := Some 1699990000000000;
     last_time_perm_sync := None |}.

Definition doc_a : DocExternalAccess :=
  {| doc_id := "doc-a";
     external_access := {| external_user_emails := {["ann@example.com"]};
                           external_user_group_ids := ∅;
                           is_public := false |} |}.

Definition doc_b : DocExternalAccess :=
  {| doc_id := "doc-b";
     external_access := {| external_user_emails := ∅;
                           external_user_group_ids := {["eng"]};
                           is_public := true |} |}.

Definition sample_registry (source : DocumentSource) : option SyncConfig :=
  if bool_decide (source = "google_drive") then
    Some {| doc_sync_config :=
              Some {| doc_sync_frequency := 300;
                      initial_index_should_sync := true;
                      doc_sync_func := fun _ =>
                        [PProgress "drive" 1; PYield doc_a; PElapse 2000000;
                         PYield doc_b] |};
            censoring_config := None |}
  else if bool_decide (source = "salesforce") then
    Some {| doc_sync_config := None; censoring_config := Some mkCensoringConfig |}
  else if bool_decide (source = "web") then
    Some {| doc_sync_config := None; censoring_config := None |}
  else None.

Definition with_source (source : DocumentSource) (c : ConnectorCredentialPair)
  : ConnectorCredentialPair :=
  {| cc_pair_id := cc_pair_id c;
     connector_id := connector_id c;
     connector_source := source;
     credential_id := credential_id c;
     access_type := access_type c;
     status := status c;
     last_successful_index_time := last_successful_index_time c;
     last_time_perm_sync := last_time_perm_sync c |}.

(** An environment whose database holds the pair under the given source,
    and in which the given collaborator call raises. *)
Definition sync_env (source : DocumentSource) (failing : event → option exn) : Env :=
  {| faults := failing;
     now_utc := now_utc quiet_env;
     db_cc_pair := fun _ => Some (with_source source sample_cc_pair);
     uuid4 := uuid4 quiet_env;
     make_short_id := make_short_id quiet_env;
     lock_freed_in_time := false;
     sleep_interference := fun _ r => r;
     sleep_overshoot := fun _ => 0%N;
     attempt_faults := fun _ _ => None;
     created_new_doc := fun _ => false;
     attempt_duration := fun _ => 1%positive;
     random_draw := fun _ => 0%N |}.

Definition no_fault : event → option exn := fun _ => None.

(** The upsert of [doc-b] fails. *)
Definition doc_b_fails (e : event) : option exn :=
  match e with
  | EUpdateDb d => if bool_decide (doc_id d = "doc-b")
                   then Some (OtherException "IntegrityError") else None
  | _ => None
  end.

(** The fence as the beat task leaves it: task id filled in, not started. *)
Definition ready_payload : RedisConnectorPermissionSyncPayload :=
  {| payload_id := "abc123";
     submitted := 1699999990000000;
     started := None;
     celery_task_id := Some "permissionsync+generator_7_5f0c" |}.

Definition ready_world : World :=
  mkWorld (<[FenceKey 7 := VFence (Parsed ready_payload)]>
             (<[ActiveKey 7 := VFlag]>
                (<[ActiveFencesKey := VKeys {[FenceKey 7]}]> ∅))) ∅ [] 0.

(** The same while another worker holds the sync lock of the pair. *)
Definition contended_world : World :=
  mkWorld (<[SyncLockKey 7 := VLock OtherProcess]> (redis ready_world)) ∅ [] 0.

(** The generator task key of pair 7, an environment in which the broker
    refuses the task, and a world in which another process holds the
    function lock. *)
Definition sample_task_key (cc : Z) : string := "permissionsync+generator_7".

Definition send_fails (e : event) : option exn :=
  match e with
  | ESendTask _ _ => Some (OtherException "OperationalError")
  | _ => None
  end.

Definition function_locked_world : World :=
  mkWorld (<[FunctionLockKey := VLock OtherProcess]> ∅) ∅ [] 0.

(** A database that is unreachable during the first two attempts of an
    upsert, the predicate that calls that error retryable, and an
    environment with such a database. *)
Definition operational_error : exn := OtherException "OperationalError".

Definition retryable_sample (e : exn) : bool := bool_decide (e = operational_error).

Definition flaky_env : Env :=
  {| faults := no_fault;
     now_utc := now_utc quiet_env;
     db_cc_pair := fun _ => None;
     uuid4 := uuid4 quiet_env;
     make_short_id := make_short_id quiet_env;
     lock_freed_in_time := false;
     sleep_interference := fun _ r => r;
     sleep_overshoot := fun _ => 0%N;
     attempt_faults := fun n e =>
       match e with
       | EUpsertExternalPerms _ _ _ =>
           if bool_decide (n ≤ 2)%nat then Some operational_error else None
       | _ => None
       end;
     created_new_doc := fun _ => true;
     attempt_duration := fun _ => 250000%positive;
     random_draw := fun n => (700001 * N.of_nat n)%N |}.

(** The key of the beat lock in the sample runs (any key outside the fence
    stores does), a world in which the beat task owns it and pair 7 has a
    crashed fence, and two reports of the broker. *)
Definition sample_beat_lock : redis_key := SyncLockKey (-1).

Definition beat_world : World :=
  mkWorld (<[sample_beat_lock := VLock ThisTask]>
             (<[FenceKey 8 := VFence (Parsed ready_payload)]> (redis crashed_world)))
    ∅ [] 0.

Definition idle_broker : CeleryInspection :=
  {| upsert_queue_length := 0; queued_upsert_tasks := ∅; reserved_generator_tasks := ∅ |}.

Definition busy_broker : CeleryInspection :=
  {| upsert_queue_length := 1025;
     queued_upsert_tasks := ∅;
     reserved_generator_tasks := ∅ |}.

(** The database refuses to mark the pair as synced. *)
Definition mark_fails (e : event) : option exn :=
  match e with
  | EMarkSynced _ _ => Some (ValueError "No cc_pair with ID")
  | _ => None
  end.

(** The sample pair, last synced at the given time. *)
Definition synced_at (t : Z) : ConnectorCredentialPair :=
  {| cc_pair_id := cc_pair_id sample_cc_pair;
     connector_id := connector_id sample_cc_pair;
     connector_source := connector_source sample_cc_pair;
     credential_id := credential_id sample_cc_pair;
     access_type := access_type sample_cc_pair;
     status := status sample_cc_pair;
     last_successful_index_time := last_successful_index_time sample_cc_pair;
     last_time_perm_sync := Some t |}.

(** ** Beat task *)

(** What one run of the beat task takes from outside.  The two Redis keys
    are those of [OnyxRedisLocks.CHECK_CONNECTOR_DOC_PERMISSIONS_SYNC_BEAT_LOCK]
    and [OnyxRedisSignals.BLOCK_VALIDATE_PERMISSION_SYNC_FENCES].  The
    session block only reads: [inl e] is a run in which it raises,
    [inr cc_pairs] one in which [get_all_auto_sync_cc_pairs] returns
    [cc_pairs]; the clock and the runtime multiplier are read once per pair.
    [others n] is what other processes, and the expiry of keys, have done to
    Redis by the [n]-th [reacquire] of the beat lock. *)
Record BeatRun := {
  lock_beat_key : redis_key;
  block_signal_key : redis_key;
  auto_sync_cc_pairs : exn + list ConnectorCredentialPair;
  due_clock : nat → Z;
  due_multiplier : nat → Q;
  creation_env : nat → Env;
  broker : CeleryInspection;
  validation_keys : list redis_key;
  monitor_keys : list redis_key;
  monitor_env : Env;
  others : nat → Redis → Redis
}.

Section Beat.

Variable get_source_perm_sync_config : DocumentSource → option SyncConfig.
Variable generator_task_key : Z → string.
Variable run : BeatRun.

(** [for cc_pair in cc_pairs: if due: cc_pair_ids_to_sync.append(...)];
    [n] counts the pairs looked at so far. *)
Fixpoint cc_pair_ids_to_sync (n : nat) (cc_pairs : list ConnectorCredentialPair)
  : list Z :=
  match cc_pairs with
  | [] => []
  | cc_pair :: rest =>
      if _is_external_doc_permissions_sync_due get_source_perm_sync_config
           (due_clock run n) (due_multiplier run n) cc_pair
      then cc_pair_id cc_pair :: cc_pair_ids_to_sync (S n) rest
      else cc_pair_ids_to_sync (S n) rest
  end.

(** [for cc_pair_id in cc_pair_ids_to_sync: ...]; the payload id is only
    logged. *)
Fixpoint creation_loop (n : nat) (ids : list Z) : M unit :=
  match ids with
  | [] => ret tt
  | cc_pair_id :: rest =>
      payload_id <- try_creating_permissions_sync_task generator_task_key
                      (creation_env run n) cc_pair_id ;;
      creation_loop (S n) rest
  end.

(** [for key in keys: ...] over the members of [active_fences]. *)
Fixpoint monitor_loop (env : Env) (keys : list redis_key) : M unit :=
  match keys with
  | [] => ret tt
  | key_bytes :: rest =>
      present <- exists_key key_bytes ;;
      if negb present
      then modify_redis (srem ActiveFencesKey key_bytes) ;;
           monitor_loop env rest
      else
        (if is_permission_fence_key key_bytes
         then monitor_ccpair_permissions_taskset env key_bytes
         else ret tt) ;;
        monitor_loop env rest
  end.

Definition check_for_doc_permissions_sync : M (option bool) :=
  let lock_beat := lock_beat_key run in
  acquired <- lock_acquire_nonblocking lock_beat ;;
  if negb acquired then ret None else
  try_finally
    (try_except
       (ids <- match auto_sync_cc_pairs run with
               | inl e => raise e
               | inr cc_pairs => ret (cc_pair_ids_to_sync 0 cc_pairs)
               end ;;
        modify_redis (others run 0) ;;
        lock_reacquire lock_beat ;;
        creation_loop 0 ids ;;
        modify_redis (others run 1) ;;
        lock_reacquire lock_beat ;;
        blocked <- exists_key (block_signal_key run) ;;
        (if negb blocked
         then try_except
                (validate_permission_sync_fences (broker run) (validation_keys run)
                   lock_beat)
                (fun _ => ret tt) ;;
              modify_redis (fun r => <[block_signal_key run := VInt 1]> r)
         else ret tt) ;;
        modify_redis (others run 2) ;;
        lock_reacquire lock_beat ;;
        monitor_loop (monitor_env run) (monitor_keys run))
       (fun _ => ret tt))
    (release_if_owned lock_beat) ;;
  ret (Some true).

End Beat.

(** Vocabulary: a computation that always returns or raises; a computation
    all of whose events satisfy a predicate. *)
Definition finishes {A} (m : M A) : Prop := ∀ w, (m w).1 ≠ Diverge.

Definition emits {A} (P : event → Prop) (m : M A) : Prop :=
  ∀ w res w', m w = (res, w') → ∃ evs, trace w' = trace w ++ evs ∧ Forall P evs.

(** A generator task is sent only for the given pairs. *)
Definition sends_only_for (ids : list Z) (e : event) : Prop :=
  match e with
  | ESendTask _ cc => cc ∈ ids
  | _ => True
  end.

(** The pair [cc] was found due by the run. *)
Definition found_due (registry : DocumentSource → option SyncConfig) (run : BeatRun)
    (cc : Z) : Prop :=
  ∃ cc_pairs n cc_pair,
    auto_sync_cc_pairs run = inr cc_pairs
    ∧ cc_pairs !! n = Some cc_pair
    ∧ cc_pair_id cc_pair = cc
    ∧ _is_external_doc_permissions_sync_due registry (due_clock run n)
        (due_multiplier run n) cc_pair = true.

(** Every listed key that is still a member of [active_fences] exists. *)
Definition lookup_consistent (keys : list redis_key) (r : Redis) : Prop :=
  ∀ k, k ∈ keys → k ∈ active_fences_members r → is_Some (r !! k).

(** Of the fence keys, [r'] lists no more than [r] in [active_fences], and
    holds what [r] holds under those it lists. *)
Definition narrows (r r' : Redis) : Prop :=
  ∀ k, is_Some (get_id_from_fence_key k) → k ∈ active_fences_members r' →
       k ∈ active_fences_members r ∧ r' !! k = r !! k.

(** Counting events and heartbeat calls. *)
Definition is_reacquire (e : event) : bool :=
  match e with ELockReacquire _ => true | _ => false end.

Definition is_set_active (e : event) : bool :=
  match e with ESetActive _ => true | _ => false end.

Definition count_of (f : event → bool) (evs : list event) : nat :=
  length (List.filter f evs).

Definition progress_calls (steps : list pstep) : nat :=
  length (List.filter (fun s => match s with PProgress _ _ => true | _ => false end)
            steps).

(** A producer that reports progress before and after half a minute in the
    source's API, a callback created at time zero, and a world in which the
    generator task owns the sync lock of pair 7. *)
Definition slow_producer : list pstep :=
  [PProgress "list" 1; PElapse 31000000; PProgress "fetch" 1; PYield doc_a].

Definition fresh_callback : PermissionSyncCallback :=
  {| cb_started := 1700000000000000;
     last_tag := "PermissionSyncCallback.__init__";
     last_lock_reacquire := 1700000000000000;
     last_lock_monotonic := 0 |}.

Definition syncing_world : World :=
  mkWorld (<[SyncLockKey 7 := VLock ThisTask]> (redis ready_world)) ∅ [] 0.

(** A beat run over two pairs, of which the first has never been synced and
    the second was synced a hundred seconds ago; the key of the block signal
    in the sample runs (any key outside the fence stores does). *)
Definition sample_block_signal : redis_key := StopFenceKey (-1).

Definition sample_beat_run : BeatRun :=
  {| lock_beat_key := sample_beat_lock;
     block_signal_key := sample_block_signal;
     auto_sync_cc_pairs := inr [sample_cc_pair; synced_at 1700000000000000];
     due_clock := fun _ => 1700000100000000;
     due_multiplier := fun _ => 1%Q;
     creation_env := fun _ => quiet_env;
     broker := idle_broker;
     validation_keys := [FenceKey 7];
     monitor_keys := [FenceKey 7];
     monitor_env := quiet_env;
     others := fun _ r => r |}.

(** The drained fence of pair 7 listed in [active_fences] beside the fence
    of pair 9, which is gone. *)
Definition stale_lookup_world : World :=
  mkWorld (<[ActiveFencesKey := VKeys {[FenceKey 7; FenceKey 9]}]> (redis drained_world))
    ∅ [] 0.


(** * Properties *)

Ltac msimpl := cbn [redis celery_queue trace monotonic negb andb] in *.

Ltac unfold_m :=
  repeat progress unfold fenced, delete_fenced, prune_fenced, active, exists_key,
    payload, generator_complete, get_remaining, optional_telemetry,
    mark_cc_pair_as_permissions_synced, update_sync_record_status,
    insert_sync_record, reset, set_active, set_fence, generator_clear,
    taskset_clear, set_generator_complete, celery_find_task, call, db_call, sleep,
    time_monotonic, advance_clock, lock_owned, lock_take,
    lock_acquire_nonblocking, lock_acquire_blocking, lock_reacquire,
    lock_release, release_if_owned, update_db, new_callback, callback_progress,
    send_task, enqueue, sync_except, try_except, try_finally, bind, ret, raise,
    emit, get_redis, modify_redis, with_trace, with_redis in *;
  msimpl.

(** ** The store *)

Lemma fenced_state cc (r : Redis) :
  bool_decide (is_Some (r !! FenceKey cc)) = false ↔ fence_state_of cc r = FenceAbsent.
Proof.
  unfold fence_state_of.
  destruct (r !! FenceKey cc) as [[[]| | | | |]|] eqn:E;
    rewrite bool_decide_eq_false; split; try done;
    intros H; try (by destruct H; eauto).
Qed.

Lemma fenced_parsed cc (r : Redis) p :
  fence_state_of cc r = FenceParsed p →
  bool_decide (is_Some (r !! FenceKey cc)) = true.
Proof.
  intros Hp. destruct (bool_decide (is_Some (r !! FenceKey cc))) eqn:Hf; [done|].
  apply fenced_state in Hf. congruence.
Qed.

Lemma srem_lookup_ne k m (r : Redis) k' : k ≠ k' → srem k m r !! k' = r !! k'.
Proof.
  intros Hne. unfold srem. destruct (r !! k) as [[]|]; try done.
  by rewrite lookup_insert_ne.
Qed.

Lemma srem_members m (r : Redis) :
  m ∉ active_fences_members (srem ActiveFencesKey m r).
Proof.
  unfold active_fences_members, srem.
  destruct (r !! ActiveFencesKey) as [[]|] eqn:E; try (rewrite E);
    try apply not_elem_of_empty.
  rewrite lookup_insert_eq. intros [_ Hm]%elem_of_difference.
  by apply Hm, elem_of_singleton.
Qed.

Lemma reset_keys_cleared cc (r : Redis) : fence_cleared cc (reset_keys cc r).
Proof.
  unfold fence_cleared, reset_keys. repeat split.
  - by rewrite lookup_delete_eq.
  - rewrite !lookup_delete_ne by done. by rewrite lookup_delete_eq.
  - rewrite lookup_delete_ne by done. by rewrite lookup_delete_eq.
  - rewrite !lookup_delete_ne by done. by rewrite lookup_delete_eq.
  - unfold active_fences_members. rewrite !lookup_delete_ne by done.
    apply srem_members.
Qed.

Lemma cleanup_keys_lookup cc (r : Redis) k :
  k ≠ FenceKey cc → k ≠ TasksetKey cc → k ≠ GeneratorCompleteKey cc →
  k ≠ ActiveFencesKey →
  cleanup_keys cc r !! k = r !! k.
Proof.
  intros. unfold cleanup_keys.
  rewrite !lookup_delete_ne by done. rewrite srem_lookup_ne by done.
  by rewrite !lookup_delete_ne by done.
Qed.

Lemma cleanup_keys_cleared cc (r : Redis) :
  generator_complete_value cc (cleanup_keys cc r) = None
  ∧ taskset_members cc (cleanup_keys cc r) = ∅
  ∧ fence_state_of cc (cleanup_keys cc r) = FenceAbsent
  ∧ FenceKey cc ∉ active_fences_members (cleanup_keys cc r).
Proof.
  unfold generator_complete_value, taskset_members, fence_state_of,
    active_fences_members, cleanup_keys.
  repeat split.
  - rewrite !lookup_delete_ne by done. by rewrite lookup_delete_eq.
  - rewrite lookup_delete_ne by done. by rewrite lookup_delete_eq.
  - by rewrite lookup_delete_eq.
  - rewrite !lookup_delete_ne by done. apply srem_members.
Qed.

(** ** Progress monitor *)

(** C2.  For a fence key of the pair [cc]: the monitor returns having
    written nothing (neither to Redis nor to the database, and no telemetry)
    when the fence is absent, when [generator_complete] is null, or when the
    payload fails to parse.  With a parsed payload and [generator_complete =
    initial]: if [remaining > 0] the only effect is the progress telemetry
    record; if [remaining = 0] (and the two database helpers return) the
    monitor emits the progress record, marks the pair as synced at
    [payload.started], emits the completion record, sets the sync record to
    [SUCCESS] with [num_docs_synced = initial] and resets the fence. *)
Theorem monitor_ccpair_permissions_taskset_finalization
    (env : Env) (key : redis_key) (cc : Z) (w : World) :
  get_id_from_fence_key key = Some cc →
  ((fence_state_of cc (redis w) = FenceAbsent
    ∨ generator_complete_value cc (redis w) = None
    ∨ fence_state_of cc (redis w) = FenceInvalid) →
   monitor_ccpair_permissions_taskset env key w = (Ok tt, w))
  ∧ (∀ p initial,
       fence_state_of cc (redis w) = FenceParsed p →
       generator_complete_value cc (redis w) = Some initial →
       let remaining := remaining_value cc (redis w) in
       let progress_record :=
         ETelemetry PERMISSION_SYNC_PROGRESS cc (Some initial) (Some remaining) in
       (remaining > 0 →
        monitor_ccpair_permissions_taskset env key w
        = (Ok tt, with_trace w [progress_record]))
       ∧ (remaining = 0 →
          faults env (EMarkSynced cc (started p)) = None →
          faults env (EUpdateSyncRecord cc EXTERNAL_PERMISSIONS SUCCESS initial) = None →
          monitor_ccpair_permissions_taskset env key w
          = (Ok tt,
             mkWorld (reset_keys cc (redis w)) (celery_queue w)
               (trace w ++ [progress_record;
                            EMarkSynced cc (started p);
                            ETelemetry PERMISSION_SYNC_COMPLETE cc None None;
                            EUpdateSyncRecord cc EXTERNAL_PERMISSIONS SUCCESS initial;
                            EReset cc])
               (monotonic w))
          ∧ fence_cleared cc (reset_keys cc (redis w)))).
Proof.
  intros Hkey. split.
  - intros H. unfold monitor_ccpair_permissions_taskset. rewrite Hkey. unfold_m.
    destruct (bool_decide (is_Some (redis w !! FenceKey cc))) eqn:Hf; [|done].
    destruct H as [H|[H|H]].
    + apply fenced_state in H. congruence.
    + msimpl. by rewrite H.
    + msimpl. destruct (generator_complete_value cc (redis w)); [|done].
      msimpl. by rewrite H.
  - intros p initial Hp Hi remaining progress_record.
    pose proof (fenced_parsed _ _ _ Hp) as Hf.
    split.
    + intros Hrem. unfold monitor_ccpair_permissions_taskset. rewrite Hkey.
      unfold_m. rewrite Hf. msimpl. rewrite Hi, Hp. msimpl.
      fold remaining. by rewrite bool_decide_eq_true_2 by done.
    + intros Hrem Hm Hu. split; [|apply reset_keys_cleared].
      unfold monitor_ccpair_permissions_taskset. rewrite Hkey.
      unfold_m. rewrite Hf. msimpl. rewrite Hi, Hp. msimpl. fold remaining.
      rewrite bool_decide_eq_false_2 by lia. msimpl.
      rewrite Hm. msimpl. rewrite Hu. msimpl.
      by rewrite <- !app_assoc.
Qed.

Lemma monitor_ccpair_permissions_taskset_finalization_witness :
  monitor_ccpair_permissions_taskset quiet_env (FenceKey 7) empty_world
  = (Ok tt, empty_world)
  ∧ monitor_ccpair_permissions_taskset quiet_env (FenceKey 7) draining_world
    = (Ok tt,
       with_trace draining_world
         [ETelemetry PERMISSION_SYNC_PROGRESS 7 (Some 3)
            (Some (remaining_value 7 (redis draining_world)))])
  ∧ monitor_ccpair_permissions_taskset quiet_env (FenceKey 7) drained_world
    = (Ok tt,
       mkWorld (reset_keys 7 (redis drained_world)) (celery_queue drained_world)
         (trace drained_world
          ++ [ETelemetry PERMISSION_SYNC_PROGRESS 7 (Some 3)
                (Some (remaining_value 7 (redis drained_world)));
              EMarkSynced 7 (started sample_payload);
              ETelemetry PERMISSION_SYNC_COMPLETE 7 None None;
              EUpdateSyncRecord 7 EXTERNAL_PERMISSIONS SUCCESS 3;
              EReset 7])
         (monotonic drained_world)).
Proof.
  split; [|split].
  - apply (proj1 (monitor_ccpair_permissions_taskset_finalization
                    quiet_env (FenceKey 7) 7 empty_world eq_refl)).
    left. reflexivity.
  - apply (proj1 (proj2 (monitor_ccpair_permissions_taskset_finalization
                           quiet_env (FenceKey 7) 7 draining_world eq_refl)
                    sample_payload 3 eq_refl eq_refl)).
    reflexivity.
  - apply (proj2 (proj2 (monitor_ccpair_permissions_taskset_finalization
                           quiet_env (FenceKey 7) 7 drained_world eq_refl)
                    sample_payload 3 eq_refl eq_refl)); reflexivity.
Defined.

(** ** Fence validator *)

Lemma scan_taskset_counts (queued_tasks reserved_tasks : gset string)
    (members : list string) :
  ∀ scanned missing,
    ∃ missing',
      foldl (fun '(tasks_scanned, tasks_not_in_celery) member_str =>
               if bool_decide (member_str ∈ queued_tasks)
               then (tasks_scanned + 1, tasks_not_in_celery)
               else if bool_decide (member_str ∈ reserved_tasks)
               then (tasks_scanned + 1, tasks_not_in_celery)
               else (tasks_scanned + 1, tasks_not_in_celery + 1))
            (scanned, missing) members
      = (scanned + Z.of_nat (length members), missing')
      ∧ missing <= missing'
      ∧ (missing' = missing ↔
         Forall (λ m, m ∈ queued_tasks ∨ m ∈ reserved_tasks) members).
Proof.
  induction members as [|m members IH]; intros scanned missing.
  - exists missing. cbn. rewrite Z.add_0_r. repeat split; try done; lia.
  - cbn [foldl length].
    case_bool_decide as Hq; [|case_bool_decide as Hr].
    + destruct (IH (scanned + 1) missing) as (m' & -> & Hle & Hiff).
      exists m'. rewrite Nat2Z.inj_succ, Forall_cons.
      split; [f_equal; lia|]. split; [done|].
      rewrite Hiff. tauto.
    + destruct (IH (scanned + 1) missing) as (m' & -> & Hle & Hiff).
      exists m'. rewrite Nat2Z.inj_succ, Forall_cons.
      split; [f_equal; lia|]. split; [done|].
      rewrite Hiff. tauto.
    + destruct (IH (scanned + 1) (missing + 1)) as (m' & -> & Hle & Hiff).
      exists m'. rewrite Nat2Z.inj_succ, Forall_cons.
      split; [f_equal; lia|]. split; [lia|].
      split; [lia|]. intros [[?|?] _]; done.
Qed.

(** The test [tasks_scanned > 0 and tasks_not_in_celery == 0] after the scan
    says that the taskset is non-empty and contained in the union of the two
    snapshots. *)
Lemma scan_taskset_covered (queued_tasks reserved_tasks taskset : gset string) :
  (let '(tasks_scanned, tasks_not_in_celery) :=
     scan_taskset queued_tasks reserved_tasks (elements taskset) in
   bool_decide (tasks_scanned > 0) && bool_decide (tasks_not_in_celery = 0)) = true
  ↔ taskset_covered queued_tasks reserved_tasks taskset.
Proof.
  unfold scan_taskset, taskset_covered.
  destruct (scan_taskset_counts queued_tasks reserved_tasks (elements taskset) 0 0)
    as (m' & -> & Hle & Hiff).
  rewrite andb_true_iff, !bool_decide_eq_true, Hiff, Forall_forall.
  split.
  - intros [Hs Hall]. split.
    + intros ->. rewrite elements_empty in Hs. cbn in Hs. lia.
    + intros m Hin. apply elem_of_union. apply Hall. by apply elem_of_elements.
  - intros [Hne Hsub]. split.
    + destruct (elements taskset) eqn:E.
      * apply elements_empty_inv in E. apply leibniz_equiv in E. done.
      * cbn [length]. lia.
    + intros m Hin. apply elem_of_union, Hsub. by apply elem_of_elements.
Qed.

Lemma validate_fence_absent key cc queued_tasks reserved_tasks w :
  get_id_from_fence_key key = Some cc →
  fence_state_of cc (redis w) = FenceAbsent →
  validate_permission_sync_fence key queued_tasks reserved_tasks w = (Ok tt, w).
Proof.
  intros Hkey Ha. unfold validate_permission_sync_fence. rewrite Hkey.
  unfold_m. apply fenced_state in Ha. by rewrite Ha.
Qed.

Lemma validate_fence_invalid key cc queued_tasks reserved_tasks w :
  get_id_from_fence_key key = Some cc →
  fence_state_of cc (redis w) = FenceInvalid →
  validate_permission_sync_fence key queued_tasks reserved_tasks w
  = (Ok tt, after_reset cc w).
Proof.
  intros Hkey Hi. unfold validate_permission_sync_fence. rewrite Hkey. unfold_m.
  destruct (bool_decide (is_Some (redis w !! FenceKey cc))) eqn:Hf.
  - msimpl. by rewrite Hi.
  - apply fenced_state in Hf. congruence.
Qed.

Lemma validate_fence_no_task_id key cc queued_tasks reserved_tasks w p :
  get_id_from_fence_key key = Some cc →
  fence_state_of cc (redis w) = FenceParsed p →
  celery_task_id p = None ∨ celery_task_id p = Some "" →
  validate_permission_sync_fence key queued_tasks reserved_tasks w = (Ok tt, w).
Proof.
  intros Hkey Hp Hn. unfold validate_permission_sync_fence. rewrite Hkey.
  unfold_m. rewrite (fenced_parsed _ _ _ Hp). msimpl. rewrite Hp. msimpl.
  destruct Hn as [->| ->]; [done|]. by rewrite bool_decide_eq_true_2.
Qed.

Lemma validate_fence_with_task_id key cc queued_tasks reserved_tasks w p task_id :
  get_id_from_fence_key key = Some cc →
  fence_state_of cc (redis w) = FenceParsed p →
  celery_task_id p = Some task_id → task_id ≠ "" →
  ((task_id ∈ celery_queue w ∨ task_id ∈ reserved_tasks)
   ∨ taskset_covered queued_tasks reserved_tasks (taskset_members cc (redis w)) →
   validate_permission_sync_fence key queued_tasks reserved_tasks w
   = (Ok tt, after_set_active cc w))
  ∧ (¬ (task_id ∈ celery_queue w ∨ task_id ∈ reserved_tasks) →
     ¬ taskset_covered queued_tasks reserved_tasks (taskset_members cc (redis w)) →
     is_Some (redis w !! ActiveKey cc) →
     validate_permission_sync_fence key queued_tasks reserved_tasks w = (Ok tt, w))
  ∧ (¬ (task_id ∈ celery_queue w ∨ task_id ∈ reserved_tasks) →
     ¬ taskset_covered queued_tasks reserved_tasks (taskset_members cc (redis w)) →
     ¬ is_Some (redis w !! ActiveKey cc) →
     validate_permission_sync_fence key queued_tasks reserved_tasks w
     = (Ok tt, after_reset cc w)).
Proof.
  intros Hkey Hp Ht Hne.
  assert (Hscan := scan_taskset_covered queued_tasks reserved_tasks
                     (taskset_members cc (redis w))).
  unfold validate_permission_sync_fence. rewrite Hkey.
  unfold_m. rewrite (fenced_parsed _ _ _ Hp). msimpl. rewrite Hp. msimpl.
  rewrite Ht. rewrite (bool_decide_eq_false_2 (task_id = "")) by done.
  unfold after_set_active, after_reset.
  destruct (decide (task_id ∈ celery_queue w)) as [Hq|Hq].
  { rewrite (bool_decide_eq_true_2 _ Hq). msimpl.
    split; [done|]. split; intros Hno; exfalso; apply Hno; by left. }
  rewrite (bool_decide_eq_false_2 _ Hq). msimpl.
  destruct (decide (task_id ∈ reserved_tasks)) as [Hr|Hr].
  { rewrite (bool_decide_eq_true_2 _ Hr). msimpl.
    split; [done|]. split; intros Hno; exfalso; apply Hno; by right. }
  rewrite (bool_decide_eq_false_2 _ Hr). msimpl.
  destruct (scan_taskset queued_tasks reserved_tasks
              (elements (taskset_members cc (redis w)))) as [ts tn].
  destruct (bool_decide (ts > 0) && bool_decide (tn = 0)) eqn:Hb; msimpl.
  { assert (taskset_covered queued_tasks reserved_tasks (taskset_members cc (redis w)))
      as Hc by (by apply Hscan).
    split; [done|]. split; intros _ Hno; by exfalso. }
  assert (¬ taskset_covered queued_tasks reserved_tasks (taskset_members cc (redis w)))
    as Hnc.
  { intros Hc. apply Hscan in Hc. done. }
  destruct (decide (is_Some (redis w !! ActiveKey cc))) as [Hl|Hl].
  - rewrite (bool_decide_eq_true_2 _ Hl). msimpl.
    split; [intros [[?|?]|?]; done|]. split; [done|]. intros _ _ Hno. by exfalso.
  - rewrite (bool_decide_eq_false_2 _ Hl). msimpl.
    split; [intros [[?|?]|?]; done|]. split; [|done]. intros _ _ Hyes. by exfalso.
Qed.

Lemma validate_outcomes key queued_tasks reserved_tasks w :
  match get_id_from_fence_key key with
  | None => validate_permission_sync_fence key queued_tasks reserved_tasks w = (Ok tt, w)
  | Some cc =>
      ∃ w', validate_permission_sync_fence key queued_tasks reserved_tasks w = (Ok tt, w')
            ∧ (w' = w ∨ w' = after_set_active cc w ∨ w' = after_reset cc w)
  end.
Proof.
  destruct (get_id_from_fence_key key) as [cc|] eqn:Hkey.
  2:{ unfold validate_permission_sync_fence. by rewrite Hkey. }
  destruct (fence_state_of cc (redis w)) as [|p|] eqn:Hst.
  - exists w. split; [by eapply validate_fence_absent|by left].
  - destruct (celery_task_id p) as [task_id|] eqn:Ht.
    2:{ exists w. split; [eapply validate_fence_no_task_id; eauto|by left]. }
    destruct (decide (task_id = "")) as [->|Hne].
    { exists w. split; [eapply validate_fence_no_task_id; eauto|by left]. }
    destruct (validate_fence_with_task_id key cc queued_tasks reserved_tasks w p task_id
                Hkey Hst Ht Hne) as (Hrenew & Hkeep & Hreset).
    destruct (decide ((task_id ∈ celery_queue w ∨ task_id ∈ reserved_tasks)
                      ∨ taskset_covered queued_tasks reserved_tasks
                          (taskset_members cc (redis w)))) as [Hr|Hnr].
    { exists (after_set_active cc w). split; [by apply Hrenew|]. right. by left. }
    destruct (decide (is_Some (redis w !! ActiveKey cc))) as [Hl|Hl].
    + exists w. split; [|by left]. apply Hkeep; [tauto|tauto|done].
    + exists (after_reset cc w). split; [|by right; right].
      apply Hreset; [tauto|tauto|done].
  - exists (after_reset cc w). split; [by eapply validate_fence_invalid|by right; right].
Qed.

Lemma reset_keys_lookup cc (r : Redis) k :
  ¬ fence_store_key cc k → reset_keys cc r !! k = r !! k.
Proof.
  intros Hk.
  assert (k ≠ FenceKey cc ∧ k ≠ ActiveKey cc ∧ k ≠ TasksetKey cc
          ∧ k ≠ GeneratorCompleteKey cc ∧ k ≠ ActiveFencesKey)
    as (H1 & H2 & H3 & H4 & H5)
    by (repeat split; intros ->; apply Hk; unfold fence_store_key; auto 10).
  unfold reset_keys. rewrite !lookup_delete_ne by done.
  by apply srem_lookup_ne.
Qed.

(** X1.  With a parsed payload that carries a task id, the validator takes
    exactly one of three decisions: it renews the active signal when the
    generator task is in the queue or in the reserved set, or when the
    taskset is non-empty and all its members are queued or reserved;
    otherwise it does nothing when the active signal is live; otherwise it
    resets the fence. *)
Theorem validate_permission_sync_fence_decision
    (key : redis_key) (cc : Z) (queued_tasks reserved_tasks : gset string)
    (w : World) (p : RedisConnectorPermissionSyncPayload) (task_id : string) :
  get_id_from_fence_key key = Some cc →
  fence_state_of cc (redis w) = FenceParsed p →
  celery_task_id p = Some task_id →
  task_id ≠ "" →
  validate_permission_sync_fence key queued_tasks reserved_tasks w
  = (Ok tt,
     if decide ((task_id ∈ celery_queue w ∨ task_id ∈ reserved_tasks)
                ∨ taskset_covered queued_tasks reserved_tasks
                    (taskset_members cc (redis w)))
     then after_set_active cc w
     else if decide (is_Some (redis w !! ActiveKey cc))
          then w
          else after_reset cc w).
Proof.
  intros Hkey Hp Ht Hne.
  destruct (validate_fence_with_task_id key cc queued_tasks reserved_tasks w p task_id
              Hkey Hp Ht Hne) as (Hrenew & Hkeep & Hreset).
  destruct (decide _) as [Hr|Hnr]; [by apply Hrenew|].
  destruct (decide _) as [Hl|Hl].
  - apply Hkeep; [tauto|tauto|done].
  - apply Hreset; [tauto|tauto|done].
Qed.

(** X2.  A fence whose payload does not parse is reset without looking at
    the queue, the reserved tasks or the active signal, and nothing of the
    fence is left: payload, active signal, taskset, [generator_complete] and
    the entry in [active_fences] are gone. *)
Theorem validate_permission_sync_fence_resets_unparseable
    (key : redis_key) (cc : Z) (queued_tasks reserved_tasks : gset string) (w : World) :
  get_id_from_fence_key key = Some cc →
  fence_state_of cc (redis w) = FenceInvalid →
  validate_permission_sync_fence key queued_tasks reserved_tasks w
  = (Ok tt, after_reset cc w)
  ∧ fence_cleared cc (redis (after_reset cc w)).
Proof.
  intros Hkey Hi. split; [by apply validate_fence_invalid|].
  apply reset_keys_cleared.
Qed.

(** X3.  The validator never raises and never resets a fence with a parsed
    payload whose generator task it sees in the queue or among the reserved
    tasks, or whose active signal is live: the payload, the taskset and
    [generator_complete] are what they were. *)
Theorem validate_permission_sync_fence_keeps_live_fence
    (key : redis_key) (cc : Z) (queued_tasks reserved_tasks : gset string)
    (w : World) (p : RedisConnectorPermissionSyncPayload) :
  get_id_from_fence_key key = Some cc →
  fence_state_of cc (redis w) = FenceParsed p →
  (∃ task_id, celery_task_id p = Some task_id
              ∧ (task_id ∈ celery_queue w ∨ task_id ∈ reserved_tasks))
  ∨ is_Some (redis w !! ActiveKey cc) →
  ∃ w', validate_permission_sync_fence key queued_tasks reserved_tasks w = (Ok tt, w')
        ∧ fence_state_of cc (redis w') = FenceParsed p
        ∧ taskset_members cc (redis w') = taskset_members cc (redis w)
        ∧ generator_complete_value cc (redis w')
          = generator_complete_value cc (redis w).
Proof.
  intros Hkey Hp Hsafe.
  assert (∀ w', w' = w ∨ w' = after_set_active cc w →
          fence_state_of cc (redis w') = FenceParsed p
          ∧ taskset_members cc (redis w') = taskset_members cc (redis w)
          ∧ generator_complete_value cc (redis w')
            = generator_complete_value cc (redis w)) as Hsame.
  { intros w' [->| ->]; [done|].
    unfold after_set_active, fence_state_of, taskset_members,
      generator_complete_value in *. msimpl.
    by rewrite !lookup_insert_ne by done. }
  destruct (celery_task_id p) as [task_id|] eqn:Ht.
  2:{ exists w. split; [|by apply Hsame; left].
      eapply validate_fence_no_task_id; eauto. }
  destruct (decide (task_id = "")) as [->|Hne].
  { exists w. split; [|by apply Hsame; left].
    eapply validate_fence_no_task_id; eauto. }
  destruct (validate_fence_with_task_id key cc queued_tasks reserved_tasks w p task_id
              Hkey Hp Ht Hne) as (Hrenew & Hkeep & _).
  destruct (decide ((task_id ∈ celery_queue w ∨ task_id ∈ reserved_tasks)
                    ∨ taskset_covered queued_tasks reserved_tasks
                        (taskset_members cc (redis w)))) as [Hr|Hnr].
  - exists (after_set_active cc w). split; [by apply Hrenew|]. apply Hsame. by right.
  - exists w. split; [|by apply Hsame; left].
    apply Hkeep; [tauto|tauto|].
    destruct Hsafe as [(t & Ht' & Ho)|Hl]; [|done].
    exfalso. apply Hnr. left. congruence.
Qed.

(** X4.  Whatever the key and the state, the validator returns normally and
    writes only keys of the fence store of the pair the key names: every
    other Redis key, the broker queue and the clock are untouched. *)
Theorem validate_permission_sync_fence_frame
    (key : redis_key) (queued_tasks reserved_tasks : gset string) (w : World) :
  ∃ w', validate_permission_sync_fence key queued_tasks reserved_tasks w = (Ok tt, w')
        ∧ celery_queue w' = celery_queue w
        ∧ monotonic w' = monotonic w
        ∧ ∀ k, (∀ cc, get_id_from_fence_key key = Some cc → ¬ fence_store_key cc k) →
               redis w' !! k = redis w !! k.
Proof.
  pose proof (validate_outcomes key queued_tasks reserved_tasks w) as H.
  destruct (get_id_from_fence_key key) as [cc|] eqn:Hkey.
  - destruct H as (w' & Hrun & [->|[->| ->]]); eexists; (split; [exact Hrun|]);
      (split; [done|]); (split; [done|]); intros k Hk; specialize (Hk cc eq_refl).
    + done.
    + unfold after_set_active. msimpl. apply lookup_insert_ne.
      intros <-. apply Hk. unfold fence_store_key. auto.
    + unfold after_reset. msimpl. by apply reset_keys_lookup.
  - exists w. by repeat split.
Qed.

Lemma validate_permission_sync_fence_decision_witness :
  validate_permission_sync_fence (FenceKey 7) ∅ ∅ crashed_world
  = (Ok tt, after_reset 7 crashed_world)
  ∧ validate_permission_sync_fence (FenceKey 7) ∅ ∅ queued_world
    = (Ok tt, after_set_active 7 queued_world)
  ∧ validate_permission_sync_fence (FenceKey 7) ∅ ∅ live_world
    = (Ok tt, live_world).
Proof.
  split; [|split].
  - rewrite (validate_permission_sync_fence_decision (FenceKey 7) 7 ∅ ∅ crashed_world
               sample_payload "permissionsync+generator_7_5f0c"); done.
  - rewrite (validate_permission_sync_fence_decision (FenceKey 7) 7 ∅ ∅ queued_world
               sample_payload "permissionsync+generator_7_5f0c"); done.
  - rewrite (validate_permission_sync_fence_decision (FenceKey 7) 7 ∅ ∅ live_world
               sample_payload "permissionsync+generator_7_5f0c"); done.
Defined.

Lemma validate_permission_sync_fence_resets_unparseable_witness :
  is_Some (redis stale_schema_world !! ActiveKey 7)
  ∧ validate_permission_sync_fence (FenceKey 7) ∅ ∅ stale_schema_world
    = (Ok tt, after_reset 7 stale_schema_world)
  ∧ fence_cleared 7 (redis (after_reset 7 stale_schema_world)).
Proof.
  split; [by eexists|].
  apply (validate_permission_sync_fence_resets_unparseable
           (FenceKey 7) 7 ∅ ∅ stale_schema_world); reflexivity.
Defined.

Lemma validate_permission_sync_fence_keeps_live_fence_witness :
  ∃ w', validate_permission_sync_fence (FenceKey 7) ∅ ∅ live_world = (Ok tt, w')
        ∧ fence_state_of 7 (redis w') = FenceParsed sample_payload
        ∧ taskset_members 7 (redis w') = taskset_members 7 (redis live_world)
        ∧ generator_complete_value 7 (redis w')
          = generator_complete_value 7 (redis live_world).
Proof.
  apply (validate_permission_sync_fence_keeps_live_fence
           (FenceKey 7) 7 ∅ ∅ live_world sample_payload);
    [reflexivity|reflexivity|].
  right. by eexists.
Defined.

Lemma validate_permission_sync_fence_frame_witness :
  ∃ w', validate_permission_sync_fence (FenceKey 7) ∅ ∅ stale_schema_world = (Ok tt, w')
        ∧ redis w' !! FenceKey 8 = redis stale_schema_world !! FenceKey 8.
Proof.
  destruct (validate_permission_sync_fence_frame (FenceKey 7) ∅ ∅ stale_schema_world)
    as (w' & Hrun & _ & _ & Hframe).
  exists w'. split; [exact Hrun|].
  apply Hframe. intros cc [= <-]. unfold fence_store_key.
  intros [H|[H|[H|[H|H]]]]; discriminate H.
Defined.

(** ** Generator task *)

Section GeneratorProperties.

Context (registry : DocumentSource → option SyncConfig).
Context (TIMEOUT BEAT : Z).

Lemma wait_for_fence_runs (env : Env) (cc : Z) (start : Z) (fuel : nat) :
  ∀ (n : nat) (w : World),
    ((Z.of_nat fuel - 1) * 1000000 + (monotonic w - start) > TIMEOUT * 1000000)%Z →
    (1 ≤ fuel)%nat →
    ∃ k res w',
      wait_for_fence TIMEOUT env cc start fuel n w = (res, w')
      ∧ trace w' = trace w ++ replicate k (ESleep 1)
      ∧ (k = 0%nat
         ∨ ((Z.of_nat k - 1) * 1000000 + (monotonic w - start) <= TIMEOUT * 1000000)%Z)
      ∧ (monotonic w + Z.of_nat k * 1000000 <= monotonic w')%Z
      ∧ celery_queue w' = celery_queue w
      ∧ (k = 0%nat → w' = w)
      ∧ wait_exit TIMEOUT cc start res w'.
Proof.
  induction fuel as [|fuel IH]; intros n w Hm Hf; [lia|].
  cbn [wait_for_fence]. unfold_m.
  case_bool_decide as Ht.
  { exists 0%nat, (Raise (ValueError "timed out waiting for fence to be ready")), w.
    cbn. rewrite app_nil_r. repeat split; try done; try lia; auto.
    all: try solve [left; split; [lia|done]]. }
  destruct (bool_decide (is_Some (redis w !! FenceKey cc))) eqn:Hfen; msimpl.
  2:{ exists 0%nat, (Raise (ValueError "fence not found")), w. cbn. rewrite app_nil_r.
      apply fenced_state in Hfen.
      repeat split; try done; try lia; auto.
      all: try solve [right; left; repeat split; [lia|done]]. }
  destruct (fence_state_of cc (redis w)) as [|p|] eqn:Hst; msimpl.
  - apply fenced_state in Hst. congruence.
  - destruct (celery_task_id p) as [t|] eqn:Hc; msimpl.
    + exists 0%nat, (Ok p), w. cbn. rewrite app_nil_r.
      repeat split; try done; try lia; eauto.
    + destruct fuel as [|fuel'].
      { exfalso. cbn in Hm. lia. }
      match goal with
      | |- context [wait_for_fence _ _ _ _ _ _ ?w1] => set (w1' := w1)
      end.
      destruct (IH (S n) w1') as (k & res & w' & Hrun & Htr & Hk & Hmono & Hq & _ & Hexit).
      { subst w1'. cbn [monotonic]. lia. }
      { lia. }
      exists (S k), res, w'. rewrite Hrun. subst w1'. msimpl.
      split; [done|]. split; [rewrite Htr; cbn; by rewrite <- app_assoc|].
      split; [right; destruct Hk as [->|Hk]; cbn; lia|].
      split; [lia|]. split; [done|]. split; [done|]. done.
  - exists 0%nat, (Raise ValidationError), w. cbn. rewrite app_nil_r.
    repeat split; try done; try lia; auto.
    all: try solve [right; right; repeat split; [lia|done]].
Qed.

(** X5.  The fence readiness wait ends: with fuel for [TIMEOUT + 2] polls
    (and for one poll at least) it returns or raises after at most
    [TIMEOUT + 1] one-second sleeps, each poll being at least a second after
    the one before.  It returns the payload only when the fence exists,
    parses and carries a task id, within the timeout; it raises [ValueError]
    when the timeout has passed or the fence is gone, and [ValidationError]
    when the payload does not parse. *)
Theorem wait_for_fence_terminates (env : Env) (cc : Z) (w : World) (fuel : nat) :
  (Z.max 1 (TIMEOUT + 2) <= Z.of_nat fuel)%Z →
  ∃ k res w',
    wait_for_fence TIMEOUT env cc (monotonic w) fuel 0 w = (res, w')
    ∧ trace w' = trace w ++ replicate k (ESleep 1)
    ∧ (Z.of_nat k <= Z.max 0 (TIMEOUT + 1))%Z
    ∧ (monotonic w + Z.of_nat k * 1000000 <= monotonic w')%Z
    ∧ wait_exit TIMEOUT cc (monotonic w) res w'.
Proof.
  intros Hfuel.
  destruct (wait_for_fence_runs env cc (monotonic w) fuel 0 w)
    as (k & res & w' & Hrun & Htr & Hk & Hmono & _ & _ & Hexit); [lia|lia|].
  exists k, res, w'. repeat split; try done.
  destruct Hk as [->|Hk]; lia.
Qed.

Lemma task_after_wait env fuel cc w p w1 :
  wait_for_fence TIMEOUT env cc (monotonic w) fuel 0 w = (Ok p, w1) →
  redis w1 !! SyncLockKey cc = None →
  connector_permission_sync_generator_task registry TIMEOUT BEAT env fuel cc w
  = try_finally (try_except (sync_body registry BEAT env cc) (sync_except cc))
      (release_if_owned (SyncLockKey cc)) (after_lock_take (SyncLockKey cc) w1).
Proof.
  intros Hw Hl. unfold connector_permission_sync_generator_task.
  unfold bind at 1. unfold time_monotonic at 1. msimpl.
  unfold bind at 1. rewrite Hw.
  unfold bind at 1. unfold lock_acquire_nonblocking, bind at 1, get_redis at 1.
  rewrite Hl. by unfold_m.
Qed.

Lemma task_wait_not_ok env fuel cc w res w1 :
  wait_for_fence TIMEOUT env cc (monotonic w) fuel 0 w = (res, w1) →
  (∀ p, res ≠ Ok p) →
  ∃ res', connector_permission_sync_generator_task registry TIMEOUT BEAT env fuel cc w
          = (res', w1)
          ∧ match res with
            | Raise e => res' = Raise e
            | _ => res' = Diverge
            end.
Proof.
  intros Hw Hno. unfold connector_permission_sync_generator_task.
  unfold bind at 1. unfold time_monotonic at 1. msimpl.
  unfold bind at 1. rewrite Hw.
  destruct res as [p|e|]; [by destruct (Hno p)|by eexists|by eexists].
Qed.

(** X6.  When the fence is missing or its payload does not parse as the task
    starts, the task raises at once ([ValueError] resp. [ValidationError])
    and has written nothing: the wait sits before the [try], so the cleanup
    of the [except] clause does not run and no lock is taken. *)
Theorem generator_task_without_usable_fence (env : Env) (fuel : nat) (cc : Z) (w : World) :
  (0 <= TIMEOUT)%Z →
  (1 ≤ fuel)%nat →
  (fence_state_of cc (redis w) = FenceAbsent →
   connector_permission_sync_generator_task registry TIMEOUT BEAT env fuel cc w
   = (Raise (ValueError "fence not found"), w))
  ∧ (fence_state_of cc (redis w) = FenceInvalid →
     connector_permission_sync_generator_task registry TIMEOUT BEAT env fuel cc w
     = (Raise ValidationError, w)).
Proof.
  intros HT Hfuel. destruct fuel as [|fuel]; [lia|].
  split; intros Hst.
  - destruct (task_wait_not_ok env (S fuel) cc w
                (Raise (ValueError "fence not found")) w) as (res' & -> & ->); try done.
    cbn [wait_for_fence]. unfold_m.
    rewrite bool_decide_eq_false_2 by lia.
    apply fenced_state in Hst. by rewrite Hst.
  - destruct (task_wait_not_ok env (S fuel) cc w (Raise ValidationError) w)
      as (res' & -> & ->); try done.
    cbn [wait_for_fence]. unfold_m.
    rewrite bool_decide_eq_false_2 by lia.
    destruct (bool_decide (is_Some (redis w !! FenceKey cc))) eqn:Hf.
    + msimpl. by rewrite Hst.
    + apply fenced_state in Hf. congruence.
Qed.

(** X7.  When another worker holds the sync lock of the pair, the task
    returns normally right after the wait and writes nothing: fence, taskset
    and [generator_complete] stay as they are and no collaborator is
    called. *)
Theorem generator_task_lock_held (env : Env) (fuel : nat) (cc : Z) (w : World)
    (p : RedisConnectorPermissionSyncPayload) (w1 : World) :
  wait_for_fence TIMEOUT env cc (monotonic w) fuel 0 w = (Ok p, w1) →
  is_Some (redis w1 !! SyncLockKey cc) →
  connector_permission_sync_generator_task registry TIMEOUT BEAT env fuel cc w
  = (Ok tt, w1).
Proof.
  intros Hw [v Hl]. unfold connector_permission_sync_generator_task.
  unfold bind at 1. unfold time_monotonic at 1. msimpl.
  unfold bind at 1. rewrite Hw.
  unfold bind at 1. unfold lock_acquire_nonblocking, bind at 1, get_redis at 1.
  rewrite Hl. by unfold_m.
Qed.

Lemma task_body_raises env fuel cc w p w1 e w2 :
  wait_for_fence TIMEOUT env cc (monotonic w) fuel 0 w = (Ok p, w1) →
  redis w1 !! SyncLockKey cc = None →
  sync_body registry BEAT env cc (after_lock_take (SyncLockKey cc) w1) = (Raise e, w2) →
  ∃ w3,
    connector_permission_sync_generator_task registry TIMEOUT BEAT env fuel cc w
    = (Raise e, w3)
    ∧ redis w3 = (if lock_owned_in (SyncLockKey cc) (redis w2)
                  then delete (SyncLockKey cc) (cleanup_keys cc (redis w2))
                  else cleanup_keys cc (redis w2))
    ∧ trace w3 = trace w2 ++ [EGeneratorClear cc; ETasksetClear cc; ESetFence cc None]
                 ++ (if lock_owned_in (SyncLockKey cc) (redis w2)
                     then [ELockRelease (SyncLockKey cc)] else [])
    ∧ celery_queue w3 = celery_queue w2
    ∧ generator_complete_value cc (redis w3) = None
    ∧ taskset_members cc (redis w3) = ∅
    ∧ fence_state_of cc (redis w3) = FenceAbsent
    ∧ (FenceKey cc ∉ active_fences_members (redis w3))
    ∧ lock_owned_in (SyncLockKey cc) (redis w3) = false.
Proof.
  intros Hw Hl Hb. rewrite (task_after_wait _ _ _ _ _ _ Hw Hl).
  unfold try_finally, try_except. rewrite Hb.
  unfold sync_except. unfold_m. fold (cleanup_keys cc (redis w2)).
  rewrite cleanup_keys_lookup by done.
  unfold lock_owned_in.
  destruct (cleanup_keys_cleared cc (redis w2)) as (Hg & Ht & Hf & Ha).
  destruct (redis w2 !! SyncLockKey cc) as [[| | | | |[]]|] eqn:Hk;
    repeat ((rewrite cleanup_keys_lookup by done) || (rewrite Hk) || (progress msimpl));
    eexists; (split; [reflexivity|]); msimpl;
    rewrite <- ?app_assoc; cbn [app]; rewrite ?app_nil_r;
    (repeat split; try done);
    unfold generator_complete_value, taskset_members, fence_state_of,
      active_fences_members in *;
    rewrite ?lookup_delete_eq, ?lookup_delete_ne by done;
    rewrite ?cleanup_keys_lookup by done; try done; try (by rewrite Hk).
Qed.

Lemma task_body_returns env fuel cc w p w1 w2 :
  wait_for_fence TIMEOUT env cc (monotonic w) fuel 0 w = (Ok p, w1) →
  redis w1 !! SyncLockKey cc = None →
  sync_body registry BEAT env cc (after_lock_take (SyncLockKey cc) w1) = (Ok tt, w2) →
  connector_permission_sync_generator_task registry TIMEOUT BEAT env fuel cc w
  = (Ok tt,
     if lock_owned_in (SyncLockKey cc) (redis w2)
     then mkWorld (delete (SyncLockKey cc) (redis w2)) (celery_queue w2)
            (trace w2 ++ [ELockRelease (SyncLockKey cc)]) (monotonic w2)
     else w2).
Proof.
  intros Hw Hl Hb. rewrite (task_after_wait _ _ _ _ _ _ Hw Hl).
  unfold try_finally, try_except. rewrite Hb.
  unfold_m. unfold lock_owned_in.
  destruct (redis w2 !! SyncLockKey cc) as [[| | | | |[]]|] eqn:Hk; msimpl;
    rewrite ?Hk; done.
Qed.

(** X8.  Whatever exception the body of the sync raises once the lock is
    taken, the task clears [generator_complete] and the taskset, deletes the
    fence, raises that same exception, and does not own the sync lock
    afterwards; it releases the lock when it still owns it. *)
Theorem generator_task_exception_cleanup (env : Env) (fuel : nat) (cc : Z) (w : World)
    (p : RedisConnectorPermissionSyncPayload) (w1 : World) (e : exn) (w2 : World) :
  wait_for_fence TIMEOUT env cc (monotonic w) fuel 0 w = (Ok p, w1) →
  redis w1 !! SyncLockKey cc = None →
  sync_body registry BEAT env cc (after_lock_take (SyncLockKey cc) w1) = (Raise e, w2) →
  ∃ w3,
    connector_permission_sync_generator_task registry TIMEOUT BEAT env fuel cc w
    = (Raise e, w3)
    ∧ trace w3 = trace w2 ++ [EGeneratorClear cc; ETasksetClear cc; ESetFence cc None]
                 ++ (if lock_owned_in (SyncLockKey cc) (redis w2)
                     then [ELockRelease (SyncLockKey cc)] else [])
    ∧ generator_complete_value cc (redis w3) = None
    ∧ taskset_members cc (redis w3) = ∅
    ∧ fence_state_of cc (redis w3) = FenceAbsent
    ∧ (FenceKey cc ∉ active_fences_members (redis w3))
    ∧ lock_owned_in (SyncLockKey cc) (redis w3) = false.
Proof.
  intros Hw Hl Hb.
  destruct (task_body_raises env fuel cc w p w1 e w2 Hw Hl Hb)
    as (w3 & Hrun & _ & Htr & _ & Hrest).
  exists w3. tauto.
Qed.

Lemma sync_body_without_doc_sync env cc w cc_pair :
  faults env (EGetCcPair cc) = None →
  db_cc_pair env cc = Some cc_pair →
  faults env (EValidateCcpair cc) = None →
  match registry (connector_source cc_pair) with
  | None =>
      sync_body registry BEAT env cc w
      = (Ok tt, with_trace w [EGetCcPair cc; EValidateCcpair cc])
  | Some sync_config =>
      doc_sync_config sync_config = None →
      sync_body registry BEAT env cc w
      = (match censoring_config sync_config with
         | Some _ => Ok tt
         | None => Raise (ValueError "No doc sync func found")
         end,
         with_trace w [EGetCcPair cc; EValidateCcpair cc])
  end.
Proof.
  intros Hg Hdb Hv. unfold sync_body. unfold_m. rewrite Hg. msimpl.
  rewrite Hdb. msimpl. rewrite Hv. msimpl.
  destruct (registry (connector_source cc_pair)) as [sc|].
  - intros ->. destruct (censoring_config sc); msimpl; by rewrite <- app_assoc.
  - by rewrite <- app_assoc.
Qed.

(** X9.  When no sync config is registered for the source of the pair, or
    the config has a censoring config and no doc sync config, the task
    returns normally and Redis is exactly as the wait left it: the fence
    payload, the active signal, the taskset and [generator_complete] are
    untouched, nothing is upserted, and the sync lock is released. *)
Theorem generator_task_nothing_to_sync (env : Env) (fuel : nat) (cc : Z) (w : World)
    (p : RedisConnectorPermissionSyncPayload) (w1 : World)
    (cc_pair : ConnectorCredentialPair) :
  wait_for_fence TIMEOUT env cc (monotonic w) fuel 0 w = (Ok p, w1) →
  redis w1 !! SyncLockKey cc = None →
  faults env (EGetCcPair cc) = None →
  db_cc_pair env cc = Some cc_pair →
  faults env (EValidateCcpair cc) = None →
  registry (connector_source cc_pair) = None
  ∨ (∃ sync_config c,
       registry (connector_source cc_pair) = Some sync_config
       ∧ doc_sync_config sync_config = None
       ∧ censoring_config sync_config = Some c) →
  connector_permission_sync_generator_task registry TIMEOUT BEAT env fuel cc w
  = (Ok tt,
     with_trace w1 [ELockAcquire (SyncLockKey cc); EGetCcPair cc;
                    EValidateCcpair cc; ELockRelease (SyncLockKey cc)]).
Proof.
  intros Hw Hl Hg Hdb Hv Hcfg.
  pose proof (sync_body_without_doc_sync env cc (after_lock_take (SyncLockKey cc) w1)
                cc_pair Hg Hdb Hv) as Hbody.
  assert (sync_body registry BEAT env cc (after_lock_take (SyncLockKey cc) w1)
          = (Ok tt, with_trace (after_lock_take (SyncLockKey cc) w1)
                      [EGetCcPair cc; EValidateCcpair cc])) as Hb.
  { destruct Hcfg as [Hnone|(sc & c & Hsc & Hd & Hc)].
    - by rewrite Hnone in Hbody.
    - rewrite Hsc in Hbody. rewrite (Hbody Hd), Hc. done. }
  rewrite (task_body_returns env fuel cc w p w1 _ Hw Hl Hb).
  unfold with_trace, after_lock_take, lock_owned_in. msimpl.
  rewrite lookup_insert_eq. rewrite delete_insert_id by done.
  by rewrite <- !app_assoc.
Qed.

(** X10.  When the registered sync config has neither a doc sync config nor
    a censoring config, the task raises [ValueError] and, through the
    [except] clause, deletes the fence it was started for. *)
Theorem generator_task_config_without_sync (env : Env) (fuel : nat) (cc : Z) (w : World)
    (p : RedisConnectorPermissionSyncPayload) (w1 : World)
    (cc_pair : ConnectorCredentialPair) (sync_config : SyncConfig) :
  wait_for_fence TIMEOUT env cc (monotonic w) fuel 0 w = (Ok p, w1) →
  redis w1 !! SyncLockKey cc = None →
  faults env (EGetCcPair cc) = None →
  db_cc_pair env cc = Some cc_pair →
  faults env (EValidateCcpair cc) = None →
  registry (connector_source cc_pair) = Some sync_config →
  doc_sync_config sync_config = None →
  censoring_config sync_config = None →
  ∃ w3,
    connector_permission_sync_generator_task registry TIMEOUT BEAT env fuel cc w
    = (Raise (ValueError "No doc sync func found"), w3)
    ∧ trace w3 = trace w1 ++ [ELockAcquire (SyncLockKey cc); EGetCcPair cc;
                              EValidateCcpair cc; EGeneratorClear cc;
                              ETasksetClear cc; ESetFence cc None;
                              ELockRelease (SyncLockKey cc)]
    ∧ fence_state_of cc (redis w3) = FenceAbsent
    ∧ generator_complete_value cc (redis w3) = None.
Proof.
  intros Hw Hl Hg Hdb Hv Hsc Hd Hc.
  pose proof (sync_body_without_doc_sync env cc (after_lock_take (SyncLockKey cc) w1)
                cc_pair Hg Hdb Hv) as Hbody.
  rewrite Hsc in Hbody. specialize (Hbody Hd). rewrite Hc in Hbody.
  destruct (task_body_raises env fuel cc w p w1 _ _ Hw Hl Hbody)
    as (w3 & Hrun & _ & Htr & _ & Hgc & _ & Hf & _).
  exists w3. split; [done|]. split; [|done].
  rewrite Htr. unfold with_trace, after_lock_take, lock_owned_in. msimpl.
  rewrite lookup_insert_eq. by rewrite <- !app_assoc.
Qed.

Lemma wait_for_fence_ok env cc start fuel :
  ∀ n w p w1,
    wait_for_fence TIMEOUT env cc start fuel n w = (Ok p, w1) →
    fence_state_of cc (redis w1) = FenceParsed p.
Proof.
  induction fuel as [|fuel IH]; intros n w p w1 Hrun; [done|].
  cbn [wait_for_fence] in Hrun. unfold_m.
  case_bool_decide; [done|].
  destruct (bool_decide (is_Some (redis w !! FenceKey cc))); msimpl; [|done].
  destruct (fence_state_of cc (redis w)) as [|p0|] eqn:Hst; msimpl; try done.
  destruct (celery_task_id p0); msimpl.
  - by injection Hrun as <- <-.
  - by apply IH in Hrun.
Qed.

Lemma sync_loop_ok env cc steps :
  ∀ cb k w n w',
    sync_loop BEAT env cc steps cb k w = (Ok n, w') →
    ∃ mid,
      trace w' = trace w ++ mid ++ [EExhausted]
      ∧ n = k + Z.of_nat (length (yields steps))
      ∧ produced mid = yields steps
      ∧ upserts mid = yields steps
      ∧ synchronous mid
      ∧ complete_writes mid = [].
Proof.
  induction steps as [|s steps IH]; intros cb k w n w' Hrun.
  - cbn in Hrun. unfold_m. injection Hrun as <- <-. exists []. cbn.
    repeat split; try done. symmetry. apply Z.add_0_r.
  - destruct s as [d|tag amount|dt| |e]; cbn [sync_loop] in Hrun.
    + unfold_m. destruct (faults env (EUpdateDb d)); [done|].
      apply IH in Hrun as (mid & Htr & Hn & Hp & Hu & Hs & Hc). msimpl.
      exists (EProduced d :: EUpdateDb d :: mid). cbn.
      rewrite Htr, <- !app_assoc. cbn.
      repeat split; try done; try (by f_equal).
      unfold yields in *. cbn [omap length]. rewrite Nat2Z.inj_succ. lia.
    + unfold bind at 1 in Hrun.
      destruct (callback_progress BEAT env cc cb tag amount w) as [[cb'| |] w1] eqn:Hp;
        try done.
      apply IH in Hrun as (mid & Htr & Hn & Hpr & Hu & Hs & Hc).
      unfold_m.
      case_bool_decide; msimpl.
      * rewrite lookup_insert_ne in Hp by done.
        destruct (redis w !! SyncLockKey cc) as [[| | | | |[]]|] eqn:Hk; msimpl;
          try done.
        injection Hp as <- <-. msimpl.
        exists (ESetActive cc :: ELockReacquire (SyncLockKey cc) :: mid).
        rewrite Htr, <- !app_assoc. cbn. by repeat split.
      * injection Hp as <- <-. msimpl.
        exists (ESetActive cc :: mid).
        rewrite Htr, <- !app_assoc. cbn. by repeat split.
    + unfold_m. apply IH in Hrun as (mid & Htr & Hn & Hpr & Hu & Hs & Hc).
      msimpl. exists mid. by repeat split.
    + unfold_m. apply IH in Hrun as (mid & Htr & Hn & Hpr & Hu & Hs & Hc).
      msimpl. exists mid. by repeat split.
    + done.
Qed.

Lemma sadd_lookup_ne k m (r : Redis) k' : k ≠ k' → sadd k m r !! k' = r !! k'.
Proof.
  intros Hne. unfold sadd.
  destruct (r !! k) as [[]|]; by rewrite lookup_insert_ne.
Qed.

Lemma sync_body_ok env cc w cc_pair sync_config dsc w2 :
  db_cc_pair env cc = Some cc_pair →
  registry (connector_source cc_pair) = Some sync_config →
  doc_sync_config sync_config = Some dsc →
  sync_body registry BEAT env cc w = (Ok tt, w2) →
  ∃ p0 mid,
    fence_state_of cc (redis w) = FenceParsed p0
    ∧ trace w2 = trace w
                 ++ [EGetCcPair cc; EValidateCcpair cc;
                     ESetFence cc (Some {| payload_id := payload_id p0;
                                           submitted := submitted p0;
                                           started := Some (now_utc env);
                                           celery_task_id := celery_task_id p0 |});
                     ELockReacquire (SyncLockKey cc); EDocSyncCall cc]
                 ++ mid
                 ++ [EExhausted;
                     ESetGeneratorComplete cc
                       (Z.of_nat (length (yields (doc_sync_func dsc cc_pair))))]
    ∧ produced mid = yields (doc_sync_func dsc cc_pair)
    ∧ upserts mid = yields (doc_sync_func dsc cc_pair)
    ∧ synchronous mid
    ∧ complete_writes mid = []
    ∧ generator_complete_value cc (redis w2)
      = Some (Z.of_nat (length (yields (doc_sync_func dsc cc_pair)))).
Proof.
  intros Hdb Hsc Hd Hrun. unfold sync_body in Hrun. unfold_m.
  destruct (faults env (EGetCcPair cc)); [done|]. msimpl.
  rewrite Hdb in Hrun. msimpl.
  destruct (faults env (EValidateCcpair cc)); [done|]. msimpl.
  rewrite Hsc, Hd in Hrun. msimpl.
  destruct (fence_state_of cc (redis w)) as [|p0|] eqn:Hst; msimpl; try done.
  rewrite sadd_lookup_ne, lookup_insert_ne in Hrun by done.
  destruct (redis w !! SyncLockKey cc) as [[| | | | |[]]|] eqn:Hk; msimpl; try done.
  match type of Hrun with
  | context [sync_loop _ _ _ ?steps ?cb ?k ?w0] =>
      destruct (sync_loop BEAT env cc steps cb k w0) as [[n| |] w3] eqn:Hloop
  end; try done.
  apply sync_loop_ok in Hloop as (mid & Htr & Hn & Hp & Hu & Hs & Hc).
  msimpl. injection Hrun as <-. msimpl.
  exists p0, mid. split; [done|]. split.
  { rewrite Htr, Hn. msimpl. rewrite Z.add_0_l. rewrite <- !app_assoc. done. }
  repeat split; try done.
  unfold generator_complete_value. rewrite lookup_insert_eq. f_equal. lia.
Qed.

(** X11.  A run that performs a sync and completes normally does things in
    this order: it rewrites the fence with [started] set to the current time
    (the other payload fields kept) before anything is upserted; it upserts
    every record the producer yields, each one right after it is produced
    and in the order produced; and after the producer is exhausted it writes
    [generator_complete] once, with the number of records produced.
    Nothing is upserted and [generator_complete] is not written at any other
    point, and at the end [generator_complete] holds that number. *)
Theorem generator_task_sync_ordering (env : Env) (fuel : nat) (cc : Z) (w : World)
    (p : RedisConnectorPermissionSyncPayload) (w1 : World)
    (cc_pair : ConnectorCredentialPair) (sync_config : SyncConfig)
    (dsc : DocSyncConfig) (w' : World) :
  wait_for_fence TIMEOUT env cc (monotonic w) fuel 0 w = (Ok p, w1) →
  redis w1 !! SyncLockKey cc = None →
  db_cc_pair env cc = Some cc_pair →
  registry (connector_source cc_pair) = Some sync_config →
  doc_sync_config sync_config = Some dsc →
  connector_permission_sync_generator_task registry TIMEOUT BEAT env fuel cc w
  = (Ok tt, w') →
  ∃ mid post,
    trace w' = trace w1
               ++ [ELockAcquire (SyncLockKey cc); EGetCcPair cc; EValidateCcpair cc;
                   ESetFence cc (Some {| payload_id := payload_id p;
                                         submitted := submitted p;
                                         started := Some (now_utc env);
                                         celery_task_id := celery_task_id p |});
                   ELockReacquire (SyncLockKey cc); EDocSyncCall cc]
               ++ mid
               ++ [EExhausted;
                   ESetGeneratorComplete cc
                     (Z.of_nat (length (yields (doc_sync_func dsc cc_pair))))]
               ++ post
    ∧ produced mid = yields (doc_sync_func dsc cc_pair)
    ∧ upserts mid = yields (doc_sync_func dsc cc_pair)
    ∧ synchronous mid
    ∧ complete_writes mid = []
    ∧ (post = [] ∨ post = [ELockRelease (SyncLockKey cc)])
    ∧ generator_complete_value cc (redis w')
      = Some (Z.of_nat (length (yields (doc_sync_func dsc cc_pair)))).
Proof.
  intros Hw Hl Hdb Hsc Hd Htask.
  destruct (sync_body registry BEAT env cc (after_lock_take (SyncLockKey cc) w1))
    as [[[]|e|] w2] eqn:Hb.
  2:{ destruct (task_body_raises env fuel cc w p w1 e w2 Hw Hl Hb) as (w3 & Hrun & _).
      congruence. }
  2:{ rewrite (task_after_wait _ _ _ _ _ _ Hw Hl) in Htask.
      unfold try_finally, try_except in Htask. by rewrite Hb in Htask. }
  rewrite (task_body_returns env fuel cc w p w1 w2 Hw Hl Hb) in Htask.
  destruct (sync_body_ok env cc _ cc_pair sync_config dsc w2 Hdb Hsc Hd Hb)
    as (p0 & mid & Hst & Htr & Hp & Hu & Hs & Hc & Hg).
  assert (p0 = p) as ->.
  { apply wait_for_fence_ok in Hw. unfold after_lock_take, fence_state_of in Hst.
    msimpl. rewrite lookup_insert_ne in Hst by done.
    unfold fence_state_of in Hw. congruence. }
  injection Htask as <-.
  exists mid.
  destruct (lock_owned_in (SyncLockKey cc) (redis w2)).
  - exists [ELockRelease (SyncLockKey cc)]. msimpl.
    split; [rewrite Htr; unfold after_lock_take; msimpl; by rewrite <- !app_assoc|].
    repeat split; try done; [by right|].
    unfold generator_complete_value in *. by rewrite lookup_delete_ne.
  - exists []. msimpl.
    split; [rewrite Htr; unfold after_lock_take; msimpl; by rewrite <- !app_assoc|].
    repeat split; try done. by left.
Qed.

End GeneratorProperties.

Lemma wait_for_fence_terminates_witness :
  ∃ k res w',
    wait_for_fence 300 quiet_env 7 (monotonic ready_world) 302 0 ready_world = (res, w')
    ∧ trace w' = trace ready_world ++ replicate k (ESleep 1)
    ∧ (Z.of_nat k <= Z.max 0 (300 + 1))%Z
    ∧ (monotonic ready_world + Z.of_nat k * 1000000 <= monotonic w')%Z
    ∧ wait_exit 300 7 (monotonic ready_world) res w'.
Proof.
  apply (wait_for_fence_terminates 300 quiet_env 7 ready_world 302). by vm_compute.
Defined.

Lemma generator_task_without_usable_fence_witness :
  connector_permission_sync_generator_task sample_registry 300 120
    quiet_env 302 7 empty_world
  = (Raise (ValueError "fence not found"), empty_world)
  ∧ connector_permission_sync_generator_task sample_registry 300 120
      quiet_env 302 7 stale_schema_world
    = (Raise ValidationError, stale_schema_world).
Proof.
  split.
  - apply (proj1 (generator_task_without_usable_fence sample_registry 300 120
                    quiet_env 302 7 empty_world ltac:(lia) ltac:(lia))).
    reflexivity.
  - apply (proj2 (generator_task_without_usable_fence sample_registry 300 120
                    quiet_env 302 7 stale_schema_world ltac:(lia) ltac:(lia))).
    reflexivity.
Defined.

Lemma generator_task_lock_held_witness :
  connector_permission_sync_generator_task sample_registry 300 120
    (sync_env "google_drive" no_fault) 302 7 contended_world
  = (Ok tt, contended_world).
Proof.
  apply (generator_task_lock_held sample_registry 300 120
           (sync_env "google_drive" no_fault) 302 7 contended_world ready_payload).
  - reflexivity.
  - by eexists.
Defined.

Lemma generator_task_exception_cleanup_witness :
  ∃ w3,
    connector_permission_sync_generator_task sample_registry 300 120
      (sync_env "google_drive" doc_b_fails) 302 7 ready_world
    = (Raise (OtherException "IntegrityError"), w3)
    ∧ upserts (trace w3) = [doc_a; doc_b]
    ∧ complete_writes (trace w3) = []
    ∧ fence_state_of 7 (redis w3) = FenceAbsent
    ∧ lock_owned_in (SyncLockKey 7) (redis w3) = false.
Proof.
  destruct (generator_task_exception_cleanup sample_registry 300 120
              (sync_env "google_drive" doc_b_fails) 302 7 ready_world ready_payload
              ready_world (OtherException "IntegrityError")
              (snd (sync_body sample_registry 120 (sync_env "google_drive" doc_b_fails) 7
                      (after_lock_take (SyncLockKey 7) ready_world))))
    as (w3 & Hrun & Htr & _ & _ & Hf & _ & Hl); [by vm_compute|by vm_compute|by vm_compute|].
  exists w3. split; [exact Hrun|]. rewrite Htr.
  split; [by vm_compute|]. split; [by vm_compute|]. by split.
Defined.

Lemma generator_task_nothing_to_sync_witness :
  connector_permission_sync_generator_task sample_registry 300 120
    (sync_env "salesforce" no_fault) 302 7 ready_world
  = (Ok tt,
     with_trace ready_world [ELockAcquire (SyncLockKey 7); EGetCcPair 7;
                             EValidateCcpair 7; ELockRelease (SyncLockKey 7)])
  ∧ connector_permission_sync_generator_task sample_registry 300 120
      (sync_env "notion" no_fault) 302 7 ready_world
    = (Ok tt,
       with_trace ready_world [ELockAcquire (SyncLockKey 7); EGetCcPair 7;
                               EValidateCcpair 7; ELockRelease (SyncLockKey 7)]).
Proof.
  split.
  - apply (generator_task_nothing_to_sync sample_registry 300 120
             (sync_env "salesforce" no_fault) 302 7 ready_world ready_payload ready_world
             (with_source "salesforce" sample_cc_pair));
      try reflexivity.
    right. by eexists _, _.
  - apply (generator_task_nothing_to_sync sample_registry 300 120
             (sync_env "notion" no_fault) 302 7 ready_world ready_payload ready_world
             (with_source "notion" sample_cc_pair));
      try reflexivity.
    by left.
Defined.

Lemma generator_task_config_without_sync_witness :
  ∃ w3,
    connector_permission_sync_generator_task sample_registry 300 120
      (sync_env "web" no_fault) 302 7 ready_world
    = (Raise (ValueError "No doc sync func found"), w3)
    ∧ fence_state_of 7 (redis w3) = FenceAbsent.
Proof.
  destruct (generator_task_config_without_sync sample_registry 300 120
              (sync_env "web" no_fault) 302 7 ready_world ready_payload ready_world
              (with_source "web" sample_cc_pair)
              {| doc_sync_config := None; censoring_config := None |})
    as (w3 & Hrun & _ & Hf & _); try reflexivity.
  by exists w3.
Defined.

Lemma generator_task_sync_ordering_witness :
  ∃ w' mid post,
    connector_permission_sync_generator_task sample_registry 300 120
      (sync_env "google_drive" no_fault) 302 7 ready_world = (Ok tt, w')
    ∧ upserts mid = [doc_a; doc_b]
    ∧ synchronous mid
    ∧ complete_writes (trace w') = [2]
    ∧ generator_complete_value 7 (redis w') = Some 2
    ∧ trace w'
      = trace ready_world
        ++ [ELockAcquire (SyncLockKey 7); EGetCcPair 7; EValidateCcpair 7;
            ESetFence 7 (Some {| payload_id := payload_id ready_payload;
                                 submitted := submitted ready_payload;
                                 started := Some (now_utc quiet_env);
                                 celery_task_id := celery_task_id ready_payload |});
            ELockReacquire (SyncLockKey 7); EDocSyncCall 7]
        ++ mid ++ [EExhausted; ESetGeneratorComplete 7 2] ++ post.
Proof.
  set (env := sync_env "google_drive" no_fault).
  set (w' := snd (connector_permission_sync_generator_task sample_registry 300 120
                    env 302 7 ready_world)).
  destruct (generator_task_sync_ordering sample_registry 300 120 env 302 7 ready_world
              ready_payload ready_world (with_source "google_drive" sample_cc_pair)
              {| doc_sync_config :=
                   Some {| doc_sync_frequency := 300;
                           initial_index_should_sync := true;
                           doc_sync_func := fun _ =>
                             [PProgress "drive" 1; PYield doc_a; PElapse 2000000;
                              PYield doc_b] |};
                 censoring_config := None |}
              {| doc_sync_frequency := 300;
                 initial_index_should_sync := true;
                 doc_sync_func := fun _ =>
                   [PProgress "drive" 1; PYield doc_a; PElapse 2000000; PYield doc_b] |}
              w')
    as (mid & post & Htr & _ & Hu & Hs & _ & _ & Hg);
    [vm_compute; reflexivity|vm_compute; reflexivity|vm_compute; reflexivity
    |vm_compute; reflexivity|vm_compute; reflexivity|vm_compute; reflexivity|].
  exists w', mid, post. split; [vm_compute; reflexivity|]. split; [exact Hu|].
  split; [exact Hs|]. split; [vm_compute; reflexivity|]. split; [exact Hg|]. exact Htr.
Defined.

(** ** try_creating_permissions_sync_task *)

Ltac lookups :=
  repeat first
    [ progress msimpl
    | rewrite lookup_insert_eq
    | rewrite lookup_insert_ne by done
    | rewrite lookup_delete_ne by done
    | rewrite sadd_lookup_ne by done ].

Section TryCreating.

Context (generator_task_key : Z → string).

Lemma try_creating_lock_timeout env cc w :
  ¬ lock_available env (redis w) →
  try_creating_permissions_sync_task generator_task_key env cc w
  = (Ok None, mkWorld (redis w) (celery_queue w) (trace w) (monotonic w + 15000000)).
Proof.
  intros Hno. unfold lock_available in Hno.
  unfold try_creating_permissions_sync_task. unfold_m.
  destruct (redis w !! FunctionLockKey) eqn:Hk; [|tauto].
  destruct (lock_freed_in_time env); [tauto|]. msimpl. done.
Qed.

Lemma try_creating_after_lock env cc w :
  lock_available env (redis w) →
  try_creating_permissions_sync_task generator_task_key env cc w
  = try_finally
      (try_except
         (f <- fenced cc ;;
          if f then ret None else
          f <- delete_fenced cc ;;
          if f then ret None else
          f <- prune_fenced cc ;;
          if f then ret None else
          generator_clear cc ;;
          taskset_clear cc ;;
          let custom_task_id := generator_task_key cc +:+ "_" +:+ uuid4 env in
          try_except
            (insert_sync_record env cc EXTERNAL_PERMISSIONS)
            (fun _ => ret tt) ;;
          set_active cc ;;
          let payload := {| payload_id := make_short_id env;
                            submitted := now_utc env;
                            started := None;
                            celery_task_id := None |} in
          set_fence cc (Some payload) ;;
          result_id <- send_task env custom_task_id cc ;;
          let payload := {| payload_id := payload_id payload;
                            submitted := submitted payload;
                            started := started payload;
                            celery_task_id := Some result_id |} in
          set_fence cc (Some payload) ;;
          ret (Some (payload_id payload)))%py
         (fun e => ret None))
      (release_if_owned FunctionLockKey) (after_lock_take FunctionLockKey w).
Proof.
  intros Hav. unfold try_creating_permissions_sync_task.
  unfold bind at 1. unfold lock_acquire_blocking, bind at 1, get_redis at 1.
  destruct (redis w !! FunctionLockKey) eqn:Hk.
  - destruct Hav as [? | Hfree]; [congruence|]. rewrite Hfree. by unfold_m.
  - by unfold_m.
Qed.

Lemma try_creating_fenced env cc w :
  lock_available env (redis w) →
  any_fence cc (redis w) →
  try_creating_permissions_sync_task generator_task_key env cc w
  = (Ok None,
     mkWorld (delete FunctionLockKey (redis w)) (celery_queue w)
       (trace w ++ [ELockAcquire FunctionLockKey; ELockRelease FunctionLockKey])
       (monotonic w)).
Proof.
  intros Hav Hf. rewrite try_creating_after_lock by done.
  unfold after_lock_take. unfold_m. lookups.
  destruct (bool_decide (is_Some (redis w !! FenceKey cc))) eqn:H1; lookups.
  { rewrite delete_insert_eq. by rewrite <- app_assoc. }
  destruct (bool_decide (is_Some (redis w !! DeleteFenceKey cc))) eqn:H2; lookups.
  { rewrite delete_insert_eq. by rewrite <- app_assoc. }
  destruct (bool_decide (is_Some (redis w !! PruneFenceKey cc))) eqn:H3; lookups.
  { rewrite delete_insert_eq. by rewrite <- app_assoc. }
  apply bool_decide_eq_false in H1, H2, H3. unfold any_fence in Hf. tauto.
Qed.

Lemma try_creating_unfenced env cc w :
  lock_available env (redis w) →
  ¬ any_fence cc (redis w) →
  let task_id := generator_task_key cc +:+ "_" +:+ uuid4 env in
  let p0 := creation_payload env None in
  let p1 := creation_payload env (Some task_id) in
  let r0 := fence_written cc p0 (creation_prepared cc (redis w)) in
  let before_send :=
    trace w ++ [ELockAcquire FunctionLockKey; EGeneratorClear cc; ETasksetClear cc;
                EInsertSyncRecord cc EXTERNAL_PERMISSIONS; ESetActive cc;
                ESetFence cc (Some p0); ESendTask task_id cc] in
  try_creating_permissions_sync_task generator_task_key env cc w
  = match faults env (ESendTask task_id cc) with
    | Some _ =>
        (Ok None,
         mkWorld (delete FunctionLockKey r0) (celery_queue w)
           (before_send ++ [ELockRelease FunctionLockKey]) (monotonic w))
    | None =>
        (Ok (Some (make_short_id env)),
         mkWorld (delete FunctionLockKey (fence_written cc p1 r0))
           ({[task_id]} ∪ celery_queue w)
           (before_send ++ [ESetFence cc (Some p1); ELockRelease FunctionLockKey])
           (monotonic w))
    end.
Proof.
  intros Hav Hno task_id p0 p1 r0 before_send.
  rewrite try_creating_after_lock by done.
  unfold any_fence in Hno.
  unfold after_lock_take. unfold_m. lookups.
  rewrite (bool_decide_eq_false_2 (is_Some (redis w !! FenceKey cc))) by tauto. lookups.
  rewrite (bool_decide_eq_false_2 (is_Some (redis w !! DeleteFenceKey cc))) by tauto.
  lookups.
  rewrite (bool_decide_eq_false_2 (is_Some (redis w !! PruneFenceKey cc))) by tauto.
  msimpl.
  subst task_id p0 p1 r0 before_send.
  unfold fence_written, creation_prepared, creation_payload.
  destruct (faults env (EInsertSyncRecord cc EXTERNAL_PERMISSIONS)); lookups;
    destruct (faults env (ESendTask _ cc)); lookups;
    rewrite <- !app_assoc; reflexivity.
Qed.
Lemma sadd_members m (r : Redis) :
  m ∈ active_fences_members (sadd ActiveFencesKey m r).
Proof.
  unfold active_fences_members, sadd.
  destruct (r !! ActiveFencesKey) as [[]|]; rewrite lookup_insert_eq;
    apply elem_of_union_l, elem_of_singleton || apply elem_of_singleton; done.
Qed.

(** What Redis holds once a fence with payload [p] has been written over the
    prepared state and the function lock released. *)
Lemma created_fence_state cc p p' (r : Redis) :
  let final := delete FunctionLockKey
                 (fence_written cc p (fence_written cc p' (creation_prepared cc r))) in
  let partial := delete FunctionLockKey (fence_written cc p' (creation_prepared cc r)) in
  (fence_state_of cc final = FenceParsed p
   ∧ is_Some (final !! ActiveKey cc)
   ∧ FenceKey cc ∈ active_fences_members final
   ∧ generator_complete_value cc final = None
   ∧ taskset_members cc final = ∅
   ∧ final !! FunctionLockKey = None)
  ∧ (fence_state_of cc partial = FenceParsed p'
     ∧ is_Some (partial !! ActiveKey cc)
     ∧ FenceKey cc ∈ active_fences_members partial
     ∧ generator_complete_value cc partial = None
     ∧ taskset_members cc partial = ∅
     ∧ partial !! FunctionLockKey = None).
Proof.
  cbv zeta.
  unfold fence_state_of, generator_complete_value, taskset_members,
    active_fences_members, fence_written, creation_prepared.
  split; repeat split.
  all: try (rewrite lookup_delete_eq; done).
  all: rewrite ?lookup_delete_ne by done.
  all: try apply sadd_members.
  all: rewrite ?sadd_lookup_ne by done.
  all: rewrite ?lookup_insert_eq; try done.
  all: rewrite ?lookup_insert_ne by done.
  all: rewrite ?sadd_lookup_ne by done.
  all: rewrite ?lookup_insert_ne by done.
  all: rewrite ?lookup_insert_eq; try done.
  all: rewrite ?lookup_delete_eq; try done.
  all: rewrite ?lookup_delete_ne by done.
  all: rewrite ?lookup_delete_eq; try done.
Qed.

(** X12.  [try_creating_permissions_sync_task] never raises.  When it
    returns a payload id, that id is the one it generated, the fence holds
    the payload with the id of the enqueued generator task, that task is in
    the queue, the active signal is set, the fence is listed in
    [active_fences], [generator_complete] and the taskset are empty and the
    function lock is free.  When it returns [None], nothing was enqueued. *)
Theorem try_creating_permissions_sync_task_outcome (env : Env) (cc : Z) (w : World) :
  ∃ res w',
    try_creating_permissions_sync_task generator_task_key env cc w = (Ok res, w')
    ∧ match res with
      | None => celery_queue w' = celery_queue w
      | Some id =>
          let task_id := generator_task_key cc +:+ "_" +:+ uuid4 env in
          id = make_short_id env
          ∧ fence_state_of cc (redis w')
            = FenceParsed (creation_payload env (Some task_id))
          ∧ task_id ∈ celery_queue w'
          ∧ is_Some (redis w' !! ActiveKey cc)
          ∧ FenceKey cc ∈ active_fences_members (redis w')
          ∧ generator_complete_value cc (redis w') = None
          ∧ taskset_members cc (redis w') = ∅
          ∧ redis w' !! FunctionLockKey = None
      end.
Proof.
  destruct (redis w !! FunctionLockKey) as [v|] eqn:Hk;
    [destruct (lock_freed_in_time env) eqn:Hfree|].
  2:{ eexists _, _. split; [apply try_creating_lock_timeout|done].
      unfold lock_available. intros [?|?]; congruence. }
  all: assert (lock_available env (redis w)) as Hav
         by (unfold lock_available; auto).
  all: destruct (decide (any_fence cc (redis w))) as [Hf|Hf];
         [eexists _, _; split; [by apply try_creating_fenced|done]|].
  all: pose proof (try_creating_unfenced env cc w Hav Hf) as Hrun; cbv zeta in Hrun.
  all: destruct (faults env (ESendTask _ cc));
         eexists _, _; (split; [exact Hrun|]); [done|].
  all: cbv zeta; split; [done|].
  all: destruct (created_fence_state cc
                   (creation_payload env
                      (Some (generator_task_key cc +:+ "_" +:+ uuid4 env)))
                   (creation_payload env None) (redis w))
         as [(H1 & H2 & H3 & H4 & H5 & H6) _]; msimpl.
  all: repeat split; try done.
  all: apply elem_of_union_l, elem_of_singleton; done.
Qed.

(** X13.  The two refusals leave the fence store alone.  When the function
    lock is held and not freed within the blocking timeout, the function
    returns [None] after 15 seconds and nothing else has changed.  When the
    lock is taken and the pair has a permissions, delete or prune fence, it
    returns [None] having only taken and released the lock: no fence is
    written, no sync record inserted, no task sent. *)
Theorem try_creating_permissions_sync_task_refusals (env : Env) (cc : Z) (w : World) :
  (¬ lock_available env (redis w) →
   try_creating_permissions_sync_task generator_task_key env cc w
   = (Ok None,
      mkWorld (redis w) (celery_queue w) (trace w) (monotonic w + 15 * 1000000)))
  ∧ (lock_available env (redis w) →
     any_fence cc (redis w) →
     try_creating_permissions_sync_task generator_task_key env cc w
     = (Ok None,
        mkWorld (delete FunctionLockKey (redis w)) (celery_queue w)
          (trace w ++ [ELockAcquire FunctionLockKey; ELockRelease FunctionLockKey])
          (monotonic w))).
Proof.
  split.
  - intros Hno. by rewrite try_creating_lock_timeout.
  - intros Hav Hf. by apply try_creating_fenced.
Qed.

(** X14.  On the path that creates a fence the calls happen in this order,
    whether or not [insert_sync_record] raises: the two clears, the insert
    of the sync record, [set_active], the fence written with a null task id,
    the task sent, the fence rewritten with the task id, the lock released;
    and the function returns the payload id. *)
Theorem try_creating_permissions_sync_task_order (env : Env) (cc : Z) (w : World) :
  lock_available env (redis w) →
  ¬ any_fence cc (redis w) →
  let task_id := generator_task_key cc +:+ "_" +:+ uuid4 env in
  faults env (ESendTask task_id cc) = None →
  ∃ w',
    try_creating_permissions_sync_task generator_task_key env cc w
    = (Ok (Some (make_short_id env)), w')
    ∧ trace w'
      = trace w ++ [ELockAcquire FunctionLockKey; EGeneratorClear cc; ETasksetClear cc;
                    EInsertSyncRecord cc EXTERNAL_PERMISSIONS; ESetActive cc;
                    ESetFence cc (Some (creation_payload env None));
                    ESendTask task_id cc;
                    ESetFence cc (Some (creation_payload env (Some task_id)));
                    ELockRelease FunctionLockKey]
    ∧ celery_queue w' = {[task_id]} ∪ celery_queue w
    ∧ monotonic w' = monotonic w.
Proof.
  intros Hav Hf task_id Hsend.
  pose proof (try_creating_unfenced env cc w Hav Hf) as Hrun. cbv zeta in Hrun.
  fold task_id in Hrun. rewrite Hsend in Hrun.
  eexists. split; [exact Hrun|]. msimpl. by rewrite <- !app_assoc.
Qed.

(** X15.  When [send_task] raises, the function swallows the exception and
    returns [None], but the fence it wrote just before stays: a payload with
    a null task id and null [started], the active signal, the entry in
    [active_fences]; nothing is in the queue for it and the lock is free. *)
Theorem try_creating_permissions_sync_task_send_failure
    (env : Env) (cc : Z) (w : World) (e : exn) :
  lock_available env (redis w) →
  ¬ any_fence cc (redis w) →
  faults env (ESendTask (generator_task_key cc +:+ "_" +:+ uuid4 env) cc) = Some e →
  ∃ w',
    try_creating_permissions_sync_task generator_task_key env cc w = (Ok None, w')
    ∧ fence_state_of cc (redis w') = FenceParsed (creation_payload env None)
    ∧ is_Some (redis w' !! ActiveKey cc)
    ∧ FenceKey cc ∈ active_fences_members (redis w')
    ∧ generator_complete_value cc (redis w') = None
    ∧ celery_queue w' = celery_queue w
    ∧ redis w' !! FunctionLockKey = None.
Proof.
  intros Hav Hf Hsend.
  pose proof (try_creating_unfenced env cc w Hav Hf) as Hrun. cbv zeta in Hrun.
  rewrite Hsend in Hrun.
  eexists. split; [exact Hrun|]. msimpl.
  destruct (created_fence_state cc (creation_payload env None)
              (creation_payload env None) (redis w))
    as [_ (H1 & H2 & H3 & H4 & H5 & H6)].
  by repeat split.
Qed.

End TryCreating.

Lemma monitor_quiet env key cc w :
  get_id_from_fence_key key = Some cc →
  generator_complete_value cc (redis w) = None →
  monitor_ccpair_permissions_taskset env key w = (Ok tt, w).
Proof.
  intros Hkey Hg. unfold monitor_ccpair_permissions_taskset. rewrite Hkey. unfold_m.
  destruct (bool_decide (is_Some (redis w !! FenceKey cc))); msimpl; [|done].
  by rewrite Hg.
Qed.

(** X16.  A fence whose payload has a null task id and whose
    [generator_complete] is null (the state a failed [send_task] leaves) is
    not touched by the validator, not finalized by the monitor, and makes
    every later [try_creating_permissions_sync_task] for the pair return
    [None] with the fence still in place: none of the three removes it. *)
Theorem fence_without_task_id_stays
    (generator_task_key : Z → string) (env : Env) (cc : Z) (w : World)
    (p : RedisConnectorPermissionSyncPayload) (queued_tasks reserved_tasks : gset string) :
  fence_state_of cc (redis w) = FenceParsed p →
  celery_task_id p = None →
  generator_complete_value cc (redis w) = None →
  validate_permission_sync_fence (FenceKey cc) queued_tasks reserved_tasks w = (Ok tt, w)
  ∧ monitor_ccpair_permissions_taskset env (FenceKey cc) w = (Ok tt, w)
  ∧ ∃ w', try_creating_permissions_sync_task generator_task_key env cc w = (Ok None, w')
          ∧ fence_state_of cc (redis w') = FenceParsed p
          ∧ celery_queue w' = celery_queue w.
Proof.
  intros Hp Ht Hg. split; [|split].
  - eapply validate_fence_no_task_id; eauto.
  - by apply (monitor_quiet env (FenceKey cc) cc w).
  - assert (any_fence cc (redis w)) as Hf.
    { left. exact (proj1 (bool_decide_eq_true _) (fenced_parsed cc (redis w) p Hp)). }
    destruct (redis w !! FunctionLockKey) as [v|] eqn:Hk;
      [destruct (lock_freed_in_time env) eqn:Hfree|].
    2:{ eexists. split; [apply try_creating_lock_timeout|done].
        unfold lock_available. intros [?|?]; congruence. }
    all: assert (lock_available env (redis w)) as Hav
           by (unfold lock_available; auto).
    all: eexists; split; [by apply try_creating_fenced|]; msimpl.
    all: split; [|done].
    all: unfold fence_state_of in *; by rewrite lookup_delete_ne.
Qed.

Lemma try_creating_permissions_sync_task_refusals_witness :
  try_creating_permissions_sync_task sample_task_key quiet_env 7 function_locked_world
  = (Ok None,
     mkWorld (redis function_locked_world) (celery_queue function_locked_world)
       (trace function_locked_world) (monotonic function_locked_world + 15 * 1000000))
  ∧ try_creating_permissions_sync_task sample_task_key quiet_env 7 ready_world
    = (Ok None,
       mkWorld (delete FunctionLockKey (redis ready_world)) (celery_queue ready_world)
         (trace ready_world ++ [ELockAcquire FunctionLockKey; ELockRelease FunctionLockKey])
         (monotonic ready_world)).
Proof.
  split.
  - apply (proj1 (try_creating_permissions_sync_task_refusals sample_task_key
                    quiet_env 7 function_locked_world)).
    intros [H|H]; by vm_compute in H.
  - apply (proj2 (try_creating_permissions_sync_task_refusals sample_task_key
                    quiet_env 7 ready_world)).
    + by left.
    + left. by eexists.
Defined.

Lemma try_creating_permissions_sync_task_order_witness :
  ∃ w',
    try_creating_permissions_sync_task sample_task_key quiet_env 7 empty_world
    = (Ok (Some "abc123"), w')
    ∧ trace w'
      = [ELockAcquire FunctionLockKey; EGeneratorClear 7; ETasksetClear 7;
         EInsertSyncRecord 7 EXTERNAL_PERMISSIONS; ESetActive 7;
         ESetFence 7 (Some (creation_payload quiet_env None));
         ESendTask "permissionsync+generator_7_5f0c" 7;
         ESetFence 7 (Some (creation_payload quiet_env
                              (Some "permissionsync+generator_7_5f0c")));
         ELockRelease FunctionLockKey].
Proof.
  destruct (try_creating_permissions_sync_task_order sample_task_key quiet_env 7
              empty_world) as (w' & Hrun & Htr & _).
  - by left.
  - intros [[? H]|[[? H]|[? H]]]; by vm_compute in H.
  - reflexivity.
  - exists w'. split; [exact Hrun|exact Htr].
Defined.

Lemma try_creating_permissions_sync_task_send_failure_witness :
  ∃ w',
    try_creating_permissions_sync_task sample_task_key
      (sync_env "google_drive" send_fails) 7 empty_world = (Ok None, w')
    ∧ fence_state_of 7 (redis w')
      = FenceParsed (creation_payload (sync_env "google_drive" send_fails) None)
    ∧ celery_queue w' = ∅.
Proof.
  destruct (try_creating_permissions_sync_task_send_failure sample_task_key
              (sync_env "google_drive" send_fails) 7 empty_world
              (OtherException "OperationalError"))
    as (w' & Hrun & Hf & _ & _ & _ & Hq & _).
  - by left.
  - intros [[? H]|[[? H]|[? H]]]; by vm_compute in H.
  - reflexivity.
  - exists w'. by repeat split.
Defined.

Lemma fence_without_task_id_stays_witness :
  let w := snd (try_creating_permissions_sync_task sample_task_key
                  (sync_env "google_drive" send_fails) 7 empty_world) in
  validate_permission_sync_fence (FenceKey 7) ∅ ∅ w = (Ok tt, w)
  ∧ monitor_ccpair_permissions_taskset quiet_env (FenceKey 7) w = (Ok tt, w)
  ∧ ∃ w', try_creating_permissions_sync_task sample_task_key quiet_env 7 w = (Ok None, w')
          ∧ fence_state_of 7 (redis w')
            = FenceParsed (creation_payload (sync_env "google_drive" send_fails) None)
          ∧ celery_queue w' = celery_queue w.
Proof.
  intros w.
  apply (fence_without_task_id_stays sample_task_key quiet_env 7 w
           (creation_payload (sync_env "google_drive" send_fails) None) ∅ ∅);
    vm_compute; reflexivity.
Defined.

(** ** Due policy *)

Section DueProperties.

Context (registry : DocumentSource → option SyncConfig).


(** X18.  The answer is monotone in time: a pair that is due at [now] is due
    at every later time, the configuration and the pair being the same. *)
Theorem is_external_doc_permissions_sync_due_monotone
    (now now' : Z) (multiplier : Q) (cc_pair : ConnectorCredentialPair) :
  (now <= now')%Z →
  _is_external_doc_permissions_sync_due registry now multiplier cc_pair = true →
  _is_external_doc_permissions_sync_due registry now' multiplier cc_pair = true.
Proof.
  intros Hle. unfold _is_external_doc_permissions_sync_due.
  destruct (negb (bool_decide (access_type cc_pair = SYNC))); [done|].
  destruct (negb (bool_decide (status cc_pair = ACTIVE))); [done|].
  destruct (registry (connector_source cc_pair)) as [sc|]; [|done].
  destruct (doc_sync_config sc) as [dsc|]; [|done].
  destruct (initial_index_should_sync dsc
            && bool_decide (last_successful_index_time cc_pair = None)); [done|].
  destruct (last_time_perm_sync cc_pair) as [last|]; [|done].
  repeat case_bool_decide; try done. lia.
Qed.

Lemma py_int_small (m : Q) : (-1 < m)%Q → (m < 1)%Q → py_int m = 0.
Proof.
  destruct m as [n d]. unfold Qlt, py_int. cbn [Qnum Qden]. intros Hlo Hhi.
  destruct (Z_le_gt_dec 0 n) as [Hn|Hn].
  - apply Z.quot_small. lia.
  - replace n with (- (- n)) by lia. rewrite Z.quot_opp_l by lia.
    rewrite Z.quot_small by lia. done.
Qed.

Lemma py_int_inject_Z (z : Z) : py_int (inject_Z z) = z.
Proof. unfold py_int, inject_Z. cbn [Qnum Qden]. apply Z.quot_1_r. Qed.

(** X19.  Only the integer part of the runtime multiplier counts: the answer
    for a multiplier is the answer for its truncation toward zero, so a
    multiplier strictly between -1 and 1 gives the answer for 0, a sync
    period of zero seconds. *)
Theorem is_external_doc_permissions_sync_due_truncates_multiplier
    (now : Z) (multiplier : Q) (cc_pair : ConnectorCredentialPair) :
  _is_external_doc_permissions_sync_due registry now multiplier cc_pair
  = _is_external_doc_permissions_sync_due registry now
      (inject_Z (py_int multiplier)) cc_pair
  ∧ ((-1 < multiplier)%Q → (multiplier < 1)%Q →
     _is_external_doc_permissions_sync_due registry now multiplier cc_pair
     = _is_external_doc_permissions_sync_due registry now 0 cc_pair).
Proof.
  split.
  - unfold _is_external_doc_permissions_sync_due. by rewrite py_int_inject_Z.
  - intros Hlo Hhi. unfold _is_external_doc_permissions_sync_due.
    by rewrite (py_int_small multiplier Hlo Hhi).
Qed.

End DueProperties.

(** ** ACL upserter *)

Section RetryProperties.

Context (is_retryable : exn → bool).

Lemma attempt_effects env n permissions src cid crid w r w1 :
  document_update_permissions_attempt env n permissions src cid crid w = (r, w1) →
  r ≠ Diverge
  ∧ (∀ b, r = Ok b → b = true)
  ∧ monotonic w1 = monotonic w + Z.pos (attempt_duration env n)
  ∧ celery_queue w1 = celery_queue w
  ∧ redis w1 = redis w
  ∧ ∃ d, trace w1 = trace w ++ d ∧ Forall (retry_within_policy is_retryable) d.
Proof.
  unfold document_update_permissions_attempt. unfold_m.
  destruct (attempt_faults env n (EBatchAddUsers _)); msimpl.
  { intros [= <- <-]. msimpl. repeat split; try done.
    eexists. split; [done|]. by repeat constructor. }
  destruct (attempt_faults env n (EUpsertExternalPerms _ _ _)); msimpl.
  { intros [= <- <-]. msimpl. repeat split; try done.
    eexists. split; [by rewrite <- app_assoc|]. by repeat constructor. }
  destruct (created_new_doc env n); msimpl.
  - destruct (attempt_faults env n (EUpsertByCcPair _ _ _)); msimpl.
    + intros [= <- <-]. msimpl. repeat split; try done.
      eexists. split; [by rewrite <- !app_assoc|]. by repeat constructor.
    + intros [= <- <-]. msimpl. repeat split; try done; [congruence|].
      eexists. split; [by rewrite <- !app_assoc|]. by repeat constructor.
  - intros [= <- <-]. msimpl. repeat split; try done; [congruence|].
    eexists. split; [by rewrite <- !app_assoc|]. by repeat constructor.
Qed.

Lemma wait_random_exponential_bounds n draw :
  let wait := wait_random_exponential
                (document_update_permissions_policy is_retryable) n draw in
  0 <= wait ∧ wait <= 60 * 1000000 ∧ wait <= 1000000 * 2 ^ (Z.of_nat n - 1).
Proof.
  cbv zeta. unfold wait_random_exponential, wait_exponential_high,
    document_update_permissions_policy, DOCUMENT_PERMISSIONS_UPDATE_MAX_WAIT.
  cbn [wait_multiplier wait_max].
  assert (0 <= 2 ^ (Z.of_nat n - 1)) by (apply Z.pow_nonneg; lia).
  set (a := 1 * 1000000 * 2 ^ (Z.of_nat n - 1)) in *.
  set (high := Z.max 0 (Z.min a (60 * 1000000))).
  assert (0 <= high) by lia.
  pose proof (Z.mod_pos_bound (Z.of_N draw) (high + 1) ltac:(lia)).
  subst high a. lia.
Qed.


Lemma retrying_terminates env (fn : nat → M bool) start (fuel : nat) :
  (∀ n w r w1, fn n w = (r, w1) → r ≠ Diverge ∧ monotonic w + 1 <= monotonic w1) →
  ∀ attempt_number w,
    Z.of_nat fuel + (monotonic w - start) > 600 * 1000000 →
    (1 ≤ fuel)%nat →
    ∃ res w',
      retrying (document_update_permissions_policy is_retryable) env fn start
        attempt_number fuel w = (res, w')
      ∧ res ≠ Diverge.
Proof.
  intros Hfn. induction fuel as [|fuel IH]; intros n w Hm Hf; [lia|].
  cbn [retrying]. unfold try_except.
  destruct (fn n w) as [[b|e|] w1] eqn:Hattempt.
  - by eexists _, _.
  - destruct (Hfn _ _ _ _ Hattempt) as [_ Hclock].
    unfold_m. cbn [retry_if_exception stop_after_delay
                   document_update_permissions_policy].
    destruct (is_retryable e); cbn [negb]; [|by eexists _, _].
    unfold DOCUMENT_PERMISSIONS_UPDATE_STOP_AFTER.
    case_bool_decide as Hstop; [by eexists _, _|].
    pose proof (wait_random_exponential_bounds n (random_draw env n)) as (Hw0 & _).
    cbv zeta in Hw0.
    apply IH; msimpl; lia.
  - by destruct (Hfn _ _ _ _ Hattempt).
Qed.


(** X21.  The retry loop ends: every attempt takes time, so with fuel for
    more attempts than there are microseconds in the stop delay the function
    returns or raises. *)
Theorem document_update_permissions_terminates
    (env : Env) (fuel : nat) (permissions : DocExternalAccess) (source_type_str : string)
    (connector_id credential_id : Z) (w : World) :
  600 * 1000000 < Z.of_nat fuel →
  ∃ res w',
    document_update_permissions is_retryable env fuel permissions source_type_str
      connector_id credential_id w = (res, w')
    ∧ res ≠ Diverge.
Proof.
  intros Hfuel. unfold document_update_permissions.
  unfold bind at 1, time_monotonic at 1.
  apply retrying_terminates; [|lia|lia].
  intros n w0 r w1 Ha.
  destruct (attempt_effects env n permissions source_type_str connector_id
              credential_id w0 r w1 Ha) as (Hnd & _ & Hclock & _).
  split; [done|]. lia.
Qed.

End RetryProperties.


Lemma document_update_permissions_terminates_witness :
  ∃ res w',
    document_update_permissions retryable_sample flaky_env (Z.to_nat 600000001) doc_a
      "google_drive" 3 5 empty_world = (res, w')
    ∧ res ≠ Diverge.
Proof.
  apply (document_update_permissions_terminates retryable_sample flaky_env
           (Z.to_nat 600000001) doc_a "google_drive" 3 5 empty_world).
  rewrite Z2Nat.id; lia.
Defined.

(** ** Validation of all fences *)

Lemma validate_fence_step key queued_tasks reserved_tasks w :
  ∃ w', validate_permission_sync_fence key queued_tasks reserved_tasks w = (Ok tt, w')
        ∧ celery_queue w' = celery_queue w
        ∧ ∀ k, (∀ cc, get_id_from_fence_key key = Some cc → ¬ fence_store_key cc k) →
               redis w' !! k = redis w !! k.
Proof.
  pose proof (validate_outcomes key queued_tasks reserved_tasks w) as H.
  destruct (get_id_from_fence_key key) as [cc|] eqn:Hkey.
  - destruct H as (w' & Hrun & [->|[->| ->]]); eexists; (split; [exact Hrun|]);
      (split; [done|]); intros k Hk; specialize (Hk cc eq_refl).
    + done.
    + unfold after_set_active. msimpl. apply lookup_insert_ne.
      intros <-. apply Hk. unfold fence_store_key. auto.
    + unfold after_reset. msimpl. by apply reset_keys_lookup.
  - exists w. by repeat split.
Qed.

Lemma validate_fences_loop_frame insp lock_beat keys :
  (∀ cc, ¬ fence_store_key cc lock_beat) →
  ∀ w,
    lock_owned_in lock_beat (redis w) = true →
    ∃ w',
      validate_fences_loop insp lock_beat keys w = (Ok tt, w')
      ∧ celery_queue w' = celery_queue w
      ∧ lock_owned_in lock_beat (redis w') = true
      ∧ ∀ k, (∀ cc, FenceKey cc ∈ keys → ¬ fence_store_key cc k) →
             redis w' !! k = redis w !! k.
Proof.
  intros Hlock. induction keys as [|key rest IH]; intros w Hown.
  - exists w. by repeat split.
  - cbn [validate_fences_loop].
    destruct (is_permission_fence_key key) eqn:Hperm; cbn [negb].
    + destruct key as [cc| | | | | | | | |]; try done.
      destruct (validate_fence_step (FenceKey cc) (queued_upsert_tasks insp)
                  (reserved_generator_tasks insp) w) as (w1 & Hrun & Hq1 & Hframe1).
      assert (redis w1 !! lock_beat = redis w !! lock_beat) as Hl1.
      { apply Hframe1. intros cc' [= <-]. apply Hlock. }
      assert (lock_owned_in lock_beat (redis w1) = true) as Hown1.
      { unfold lock_owned_in in *. by rewrite Hl1. }
      unfold bind at 1. rewrite Hrun.
      unfold bind at 1. unfold lock_reacquire, bind at 1, lock_owned, bind at 1,
        get_redis, ret.
      unfold lock_owned_in in Hown1.
      destruct (redis w1 !! lock_beat) as [[| | | | |[]]|] eqn:Hk; try done.
      unfold emit.
      match goal with
      | |- context [validate_fences_loop _ _ _ ?w2] =>
          destruct (IH w2) as (w' & Hloop & Hq & Hown' & Hframe)
      end.
      { unfold lock_owned_in. msimpl. by rewrite Hk. }
      exists w'. rewrite Hloop. msimpl. split; [done|]. split; [congruence|].
      split; [done|]. intros k Hk'.
      rewrite Hframe by (intros c Hc; apply Hk'; by apply list_elem_of_further).
      msimpl. apply Hframe1. intros c [= <-]. apply Hk'. apply list_elem_of_here.
    + destruct (IH w Hown) as (w' & Hloop & Hq & Hown' & Hframe).
      exists w'. split; [done|]. split; [done|]. split; [done|].
      intros k Hk'. apply Hframe. intros c Hc. apply Hk'.
      by apply list_elem_of_further.
Qed.

(** X22.  While the caller owns the beat lock, validation of all fences
    returns normally and still owns the lock.  It leaves the broker queue
    alone, and of Redis it writes only fence-store keys of pairs whose
    permission fence key is among the keys it was given: the fence, active
    signal, taskset and [generator_complete] of every other pair are
    untouched. *)
Theorem validate_permission_sync_fences_frame
    (insp : CeleryInspection) (replica_keys : list redis_key) (lock_beat : redis_key)
    (w : World) :
  (∀ cc, ¬ fence_store_key cc lock_beat) →
  lock_owned_in lock_beat (redis w) = true →
  ∃ w',
    validate_permission_sync_fences insp replica_keys lock_beat w = (Ok tt, w')
    ∧ celery_queue w' = celery_queue w
    ∧ lock_owned_in lock_beat (redis w') = true
    ∧ ∀ k, (∀ cc, FenceKey cc ∈ replica_keys → ¬ fence_store_key cc k) →
           redis w' !! k = redis w !! k.
Proof.
  intros Hlock Hown. unfold validate_permission_sync_fences.
  case_bool_decide; [exists w; by repeat split|].
  unfold bind at 1. unfold lock_reacquire, bind at 1, lock_owned, bind at 1,
    get_redis, ret.
  pose proof Hown as Hown'. unfold lock_owned_in in Hown'.
  destruct (redis w !! lock_beat) as [[| | | | |[]]|] eqn:Hk; try done.
  unfold emit.
  match goal with
  | |- context [validate_fences_loop _ _ _ ?w2] =>
      destruct (validate_fences_loop_frame insp lock_beat replica_keys Hlock w2)
        as (w' & Hloop & Hq & Hown2 & Hframe)
  end.
  { unfold lock_owned_in. msimpl. by rewrite Hk. }
  exists w'. by rewrite Hloop.
Qed.

(** X23.  The two ways validation of all fences does nothing: with more than
    1024 tasks on the upsert lane it returns at once, not even renewing the
    beat lock; with 1024 or fewer and the beat lock lost, the first
    [reacquire] raises [LockError] before any fence is looked at. *)
Theorem validate_permission_sync_fences_guards
    (insp : CeleryInspection) (replica_keys : list redis_key) (lock_beat : redis_key)
    (w : World) :
  (upsert_queue_length insp > 1024 →
   validate_permission_sync_fences insp replica_keys lock_beat w = (Ok tt, w))
  ∧ (upsert_queue_length insp <= 1024 →
     lock_owned_in lock_beat (redis w) = false →
     validate_permission_sync_fences insp replica_keys lock_beat w
     = (Raise LockError, w)).
Proof.
  unfold validate_permission_sync_fences, PERMISSION_SYNC_VALIDATION_MAX_QUEUE_LEN.
  split.
  - intros Hlen. by rewrite bool_decide_eq_true_2.
  - intros Hlen Hown. rewrite bool_decide_eq_false_2 by lia.
    unfold_m. unfold lock_owned_in in Hown.
    by destruct (redis w !! lock_beat) as [[| | | | |[]]|].
Qed.

Lemma validate_permission_sync_fences_frame_witness :
  ∃ w',
    validate_permission_sync_fences idle_broker [FenceKey 7; DeleteFenceKey 9]
      sample_beat_lock beat_world = (Ok tt, w')
    ∧ lock_owned_in sample_beat_lock (redis w') = true
    ∧ redis w' !! FenceKey 8 = redis beat_world !! FenceKey 8.
Proof.
  destruct (validate_permission_sync_fences_frame idle_broker
              [FenceKey 7; DeleteFenceKey 9] sample_beat_lock beat_world)
    as (w' & Hrun & _ & Hown & Hframe).
  - intros cc [H|[H|[H|[H|H]]]]; discriminate H.
  - reflexivity.
  - exists w'. split; [exact Hrun|]. split; [exact Hown|].
    apply Hframe. intros cc Hin.
    apply elem_of_cons in Hin as [[= ->]|Hin];
      [|apply elem_of_cons in Hin as [Hin|Hin]; [discriminate Hin|]].
    + intros [H|[H|[H|[H|H]]]]; discriminate H.
    + by apply not_elem_of_nil in Hin.
Defined.

Lemma validate_permission_sync_fences_guards_witness :
  validate_permission_sync_fences busy_broker [FenceKey 7] sample_beat_lock beat_world
  = (Ok tt, beat_world)
  ∧ validate_permission_sync_fences idle_broker [FenceKey 7] sample_beat_lock
      crashed_world
    = (Raise LockError, crashed_world).
Proof.
  split.
  - apply (proj1 (validate_permission_sync_fences_guards busy_broker [FenceKey 7]
                    sample_beat_lock beat_world)).
    reflexivity.
  - apply (proj2 (validate_permission_sync_fences_guards idle_broker [FenceKey 7]
                    sample_beat_lock crashed_world)); [by vm_compute|reflexivity].
Defined.

(** ** Progress monitor: database failures *)

(** X24.  A database failure while the monitor finalizes a drained sync
    propagates and leaves the fence in place.  When marking the pair as
    synced raises, nothing but the progress record has been emitted; when
    the update of the sync record raises, the pair is already marked and the
    completion record emitted.  In both cases Redis is untouched, so the
    fence is not reset. *)
Theorem monitor_ccpair_permissions_taskset_database_failure
    (env : Env) (key : redis_key) (cc : Z) (w : World)
    (p : RedisConnectorPermissionSyncPayload) (initial : Z) (e : exn) :
  get_id_from_fence_key key = Some cc →
  fence_state_of cc (redis w) = FenceParsed p →
  generator_complete_value cc (redis w) = Some initial →
  remaining_value cc (redis w) = 0 →
  let progress_record :=
    ETelemetry PERMISSION_SYNC_PROGRESS cc (Some initial) (Some 0) in
  (faults env (EMarkSynced cc (started p)) = Some e →
   monitor_ccpair_permissions_taskset env key w
   = (Raise e, with_trace w [progress_record; EMarkSynced cc (started p)]))
  ∧ (faults env (EMarkSynced cc (started p)) = None →
     faults env (EUpdateSyncRecord cc EXTERNAL_PERMISSIONS SUCCESS initial) = Some e →
     monitor_ccpair_permissions_taskset env key w
     = (Raise e,
        with_trace w [progress_record;
                      EMarkSynced cc (started p);
                      ETelemetry PERMISSION_SYNC_COMPLETE cc None None;
                      EUpdateSyncRecord cc EXTERNAL_PERMISSIONS SUCCESS initial])).
Proof.
  intros Hkey Hp Hi Hrem progress_record.
  pose proof (fenced_parsed _ _ _ Hp) as Hf.
  split.
  - intros Hm. unfold monitor_ccpair_permissions_taskset. rewrite Hkey.
    unfold_m. rewrite Hf. msimpl. rewrite Hi, Hp. msimpl. rewrite Hrem.
    rewrite bool_decide_eq_false_2 by lia. msimpl.
    rewrite Hm. msimpl. by rewrite <- !app_assoc.
  - intros Hm Hu. unfold monitor_ccpair_permissions_taskset. rewrite Hkey.
    unfold_m. rewrite Hf. msimpl. rewrite Hi, Hp. msimpl. rewrite Hrem.
    rewrite bool_decide_eq_false_2 by lia. msimpl.
    rewrite Hm. msimpl. rewrite Hu. msimpl. by rewrite <- !app_assoc.
Qed.

Lemma monitor_ccpair_permissions_taskset_database_failure_witness :
  monitor_ccpair_permissions_taskset (sync_env "google_drive" mark_fails)
    (FenceKey 7) drained_world
  = (Raise (ValueError "No cc_pair with ID"),
     with_trace drained_world
       [ETelemetry PERMISSION_SYNC_PROGRESS 7 (Some 3) (Some 0);
        EMarkSynced 7 (started sample_payload)]).
Proof.
  apply (proj1 (monitor_ccpair_permissions_taskset_database_failure
                  (sync_env "google_drive" mark_fails) (FenceKey 7) 7 drained_world
                  sample_payload 3 (ValueError "No cc_pair with ID")
                  eq_refl eq_refl eq_refl eq_refl)).
  reflexivity.
Defined.

Lemma is_external_doc_permissions_sync_due_monotone_witness :
  _is_external_doc_permissions_sync_due sample_registry 1700000600000000 2
    (synced_at 1700000000000000) = true
  ∧ _is_external_doc_permissions_sync_due sample_registry 1700000599999999 2
      (synced_at 1700000000000000) = false
  ∧ _is_external_doc_permissions_sync_due sample_registry 1700000900000000 2
      (synced_at 1700000000000000) = true.
Proof.
  split; [reflexivity|]. split; [reflexivity|].
  apply (is_external_doc_permissions_sync_due_monotone sample_registry
           1700000600000000 1700000900000000 2 (synced_at 1700000000000000)).
  - lia.
  - reflexivity.
Defined.

Lemma is_external_doc_permissions_sync_due_truncates_multiplier_witness :
  _is_external_doc_permissions_sync_due sample_registry 1700000000000001 (1 # 2)
    (synced_at 1700000000000000)
  = _is_external_doc_permissions_sync_due sample_registry 1700000000000001 0
      (synced_at 1700000000000000)
  ∧ _is_external_doc_permissions_sync_due sample_registry 1700000000000001 (1 # 2)
      (synced_at 1700000000000000) = true
  ∧ _is_external_doc_permissions_sync_due sample_registry 1700000000000001 1
      (synced_at 1700000000000000) = false.
Proof.
  split; [|split; reflexivity].
  apply (proj2 (is_external_doc_permissions_sync_due_truncates_multiplier
                  sample_registry 1700000000000001 (1 # 2)
                  (synced_at 1700000000000000))); reflexivity.
Defined.

(** ** Heartbeat *)

Ltac cnt := unfold count_of, progress_calls; cbn [app List.filter is_reacquire is_set_active length].

Section Heartbeat.

Context (BEAT : Z).

(** X25.  The heartbeat of a sync: while the producer runs, the clock never
    goes back; [progress] renews the sync lock at most once per quarter of
    the lock timeout, so the number of renewals times the timeout is at most
    four times the time elapsed since the callback last renewed the lock;
    and a run that reaches the end of the producer has refreshed the active
    signal once per [progress] call. *)
Theorem permission_sync_callback_heartbeat (env : Env) (cc : Z) (steps : list pstep) :
  ∀ (cb : PermissionSyncCallback) (k : Z) (w : World) res (w' : World),
    last_lock_monotonic cb <= monotonic w →
    sync_loop BEAT env cc steps cb k w = (res, w') →
    ∃ evs,
      trace w' = trace w ++ evs
      ∧ monotonic w <= monotonic w'
      ∧ BEAT * 1000000 * Z.of_nat (count_of is_reacquire evs)
        <= 4 * (monotonic w' - last_lock_monotonic cb)
      ∧ (∀ n, res = Ok n → count_of is_set_active evs = progress_calls steps).
Proof.
  induction steps as [|s steps IH]; intros cb k w res w' Hcb Hrun.
  - cbn in Hrun. unfold_m. injection Hrun as <- <-. msimpl.
    exists [EExhausted]. cnt. repeat split; try done; lia.
  - destruct s as [d|tag amount|dt| |e]; cbn [sync_loop] in Hrun.
    + unfold_m. destruct (faults env (EUpdateDb d)).
      * injection Hrun as <- <-. msimpl. exists [EProduced d; EUpdateDb d].
        rewrite <- !app_assoc. cnt. repeat split; try done; lia.
      * apply IH in Hrun as (evs & Htr & Hm & Hr & Ha); [|done]. msimpl.
        exists (EProduced d :: EUpdateDb d :: evs).
        rewrite Htr, <- !app_assoc. cnt. repeat split; try done.
    + unfold bind at 1 in Hrun.
      destruct (callback_progress BEAT env cc cb tag amount w) as [[cb'| |] w1] eqn:Hp.
      * unfold_m. case_bool_decide; msimpl.
        -- rewrite lookup_insert_ne in Hp by done.
           destruct (redis w !! SyncLockKey cc) as [[| | | | |[]]|] eqn:Hk; msimpl;
             try done.
           injection Hp as <- <-. msimpl.
           apply IH in Hrun as (evs & Htr & Hm & Hr & Ha); msimpl; [|cbn [last_lock_monotonic]; lia].
           exists (ESetActive cc :: ELockReacquire (SyncLockKey cc) :: evs).
           rewrite Htr, <- !app_assoc. cnt. split; [done|]. split; [done|].
           split.
           ++ unfold count_of in Hr. cbn [last_lock_monotonic] in Hr. rewrite Nat2Z.inj_succ. lia.
           ++ intros n Hn. f_equal. by eapply Ha.
        -- injection Hp as <- <-. msimpl.
           apply IH in Hrun as (evs & Htr & Hm & Hr & Ha); msimpl; [|cbn [last_lock_monotonic]; lia].
           exists (ESetActive cc :: evs).
           rewrite Htr, <- !app_assoc. cnt. split; [done|]. split; [done|].
           split; [done|].
           intros n Hn. f_equal. by eapply Ha.
      * injection Hrun as <- <-. unfold_m. case_bool_decide; msimpl.
        -- rewrite lookup_insert_ne in Hp by done.
           destruct (redis w !! SyncLockKey cc) as [[| | | | |[]]|] eqn:Hk; msimpl;
             try done; injection Hp as <- <-; msimpl;
             exists [ESetActive cc]; cnt; repeat split; try done; lia.
        -- done.
      * unfold_m. case_bool_decide; msimpl; [|done].
        rewrite lookup_insert_ne in Hp by done.
        by destruct (redis w !! SyncLockKey cc) as [[| | | | |[]]|].
    + unfold_m. apply IH in Hrun as (evs & Htr & Hm & Hr & Ha); msimpl; [|cbn [last_lock_monotonic]; lia].
      exists evs. repeat split; try done; lia.
    + unfold_m. apply IH in Hrun as (evs & Htr & Hm & Hr & Ha); msimpl; [|cbn [last_lock_monotonic]; lia].
      exists evs. repeat split; try done.
    + cbn in Hrun. injection Hrun as <- <-. exists []. rewrite app_nil_r. cbn.
      repeat split; try done; lia.
Qed.
End Heartbeat.

(** ** Beat task *)

Lemma finishes_ret {A} (a : A) : finishes (ret a).
Proof. by intros w. Qed.
Lemma finishes_raise {A} e : finishes (@raise A e).
Proof. by intros w. Qed.
Lemma finishes_bind {A B} (m : M A) (k : A → M B) :
  finishes m → (∀ a, finishes (k a)) → finishes (bind m k).
Proof.
  intros Hm Hk w. unfold bind. specialize (Hm w).
  destruct (m w) as [[a|e|] w1]; [apply Hk|done|done].
Qed.
Lemma finishes_try_except {A} (m : M A) h :
  finishes m → (∀ e, finishes (h e)) → finishes (try_except m h).
Proof.
  intros Hm Hh w. unfold try_except. specialize (Hm w).
  destruct (m w) as [[a|e|] w1]; [done|apply Hh|done].
Qed.
Lemma finishes_try_finally {A} (m : M A) f :
  finishes m → finishes f → finishes (try_finally m f).
Proof.
  intros Hm Hf w. unfold try_finally. specialize (Hm w).
  destruct (m w) as [[a|e|] w1]; try done; specialize (Hf w1);
    by destruct (f w1) as [[[]|e'|] w2].
Qed.

Lemma finishes_prim {A} (f : World → A * World) :
  finishes (fun w => (Ok (f w).1, (f w).2)).
Proof. by intros w. Qed.

Ltac fin_step :=
  first
    [ apply finishes_ret | apply finishes_raise
    | apply finishes_bind; [|intros ?]
    | apply finishes_try_except; [|intros ?]
    | apply finishes_try_finally
    | by intros ?
    | match goal with
      | |- finishes (if ?b then _ else _) => destruct b
      | |- finishes (match ?x with _ => _ end) => destruct x
      | |- finishes (let '(_, _) := ?x in _) => destruct x
      end ].

Ltac fin := repeat fin_step.

Lemma finishes_exists_key k : finishes (exists_key k).
Proof. unfold exists_key. fin. Qed.

Lemma finishes_call env e : finishes (call env e).
Proof. unfold call. fin. Qed.

Lemma finishes_monitor env key : finishes (monitor_ccpair_permissions_taskset env key).
Proof.
  unfold monitor_ccpair_permissions_taskset, fenced, generator_complete, payload,
    get_remaining, optional_telemetry, mark_cc_pair_as_permissions_synced,
    update_sync_record_status, reset, exists_key, call.
  fin.
Qed.

Lemma finishes_try_creating gtk env cc :
  finishes (try_creating_permissions_sync_task gtk env cc).
Proof.
  unfold try_creating_permissions_sync_task, lock_acquire_blocking, lock_take,
    fenced, delete_fenced, prune_fenced, exists_key, generator_clear, taskset_clear,
    insert_sync_record, set_active, set_fence, send_task, call, release_if_owned,
    lock_owned, lock_release.
  fin.
Qed.

Lemma finishes_validate_fence key q r :
  finishes (validate_permission_sync_fence key q r).
Proof.
  unfold validate_permission_sync_fence, fenced, payload, exists_key, set_active,
    active, reset, celery_find_task.
  fin.
Qed.

Lemma finishes_lock_reacquire k : finishes (lock_reacquire k).
Proof. unfold lock_reacquire, lock_owned. fin. Qed.

Lemma finishes_validate_fences insp keys lock_beat :
  finishes (validate_permission_sync_fences insp keys lock_beat).
Proof.
  unfold validate_permission_sync_fences.
  assert (finishes (validate_fences_loop insp lock_beat keys)) as Hloop.
  { induction keys as [|key rest IH]; cbn [validate_fences_loop]; [fin|].
    destruct (negb (is_permission_fence_key key)); [done|].
    apply finishes_bind; [apply finishes_validate_fence|intros _].
    apply finishes_bind; [apply finishes_lock_reacquire|by intros _]. }
  case_bool_decide; [fin|].
  apply finishes_bind; [apply finishes_lock_reacquire|by intros _].
Qed.

Lemma finishes_monitor_loop env keys : finishes (monitor_loop env keys).
Proof.
  induction keys as [|key rest IH]; cbn [monitor_loop]; [fin|].
  apply finishes_bind; [apply finishes_exists_key|intros present].
  destruct (negb present).
  - apply finishes_bind; [by intros ?|by intros _].
  - apply finishes_bind; [|by intros _].
    destruct (is_permission_fence_key key); [apply finishes_monitor|fin].
Qed.

Lemma finishes_creation_loop gtk run ids :
  ∀ n, finishes (creation_loop gtk run n ids).
Proof.
  induction ids as [|cc rest IH]; intros n; cbn [creation_loop]; [fin|].
  apply finishes_bind; [apply finishes_try_creating|intros _; apply IH].
Qed.

Lemma swallowed (body : M unit) :
  finishes body → ∀ w, ∃ w', try_except body (fun _ => ret tt) w = (Ok tt, w').
Proof.
  intros Hfin w. unfold try_except. specialize (Hfin w).
  destruct (body w) as [[[]|e|] w1]; [by exists w1|by exists w1|done].
Qed.

Lemma release_if_owned_spec k w :
  ∃ w', release_if_owned k w = (Ok tt, w') ∧ lock_owned_in k (redis w') = false.
Proof.
  unfold_m. unfold lock_owned_in.
  destruct (redis w !! k) as [[| | | | |[]]|] eqn:Hk; cbn; rewrite ?Hk;
    eexists; (split; [reflexivity|]); cbn; rewrite ?lookup_delete_eq, ?Hk; done.
Qed.

(** X26.  The beat task never fails and never overlaps.  When the beat lock
    is held by anyone it returns [None] and has done nothing.  Otherwise it
    returns [True] whatever happens inside: an exception of the session
    block, of a [reacquire] after the lock was lost, of task creation, of
    validation or of the monitor is swallowed; and at the end the task does
    not own the beat lock. *)
Theorem check_for_doc_permissions_sync_outcome registry gtk (run : BeatRun) (w : World) :
  (is_Some (redis w !! lock_beat_key run) →
   check_for_doc_permissions_sync registry gtk run w = (Ok None, w))
  ∧ (redis w !! lock_beat_key run = None →
     ∃ w', check_for_doc_permissions_sync registry gtk run w = (Ok (Some true), w')
           ∧ lock_owned_in (lock_beat_key run) (redis w') = false).
Proof.
  unfold check_for_doc_permissions_sync. cbv zeta. split.
  - intros [v Hv]. unfold bind at 1. unfold lock_acquire_nonblocking, bind at 1.
    unfold get_redis. by rewrite Hv.
  - intros Hfree. unfold bind at 1. unfold lock_acquire_nonblocking, bind at 1.
    unfold get_redis. rewrite Hfree. unfold bind at 1. unfold lock_take, bind at 1.
    unfold emit, modify_redis, ret, negb.
    match goal with
    | |- context [try_finally (try_except ?body ?h) ?f] =>
        assert (finishes body) as Hfin
    end.
    { apply finishes_bind; [destruct (auto_sync_cc_pairs run); fin|intros ids].
      apply finishes_bind; [by intros ?|intros _].
      apply finishes_bind; [apply finishes_lock_reacquire|intros _].
      apply finishes_bind; [apply finishes_creation_loop|intros _].
      apply finishes_bind; [by intros ?|intros _].
      apply finishes_bind; [apply finishes_lock_reacquire|intros _].
      apply finishes_bind; [apply finishes_exists_key|intros blocked].
      apply finishes_bind.
      { destruct blocked; [fin|].
        apply finishes_bind; [|by intros ?].
        apply finishes_try_except; [apply finishes_validate_fences|by intros ?]. }
      intros _.
      apply finishes_bind; [by intros ?|intros _].
      apply finishes_bind; [apply finishes_lock_reacquire|intros _].
      apply finishes_monitor_loop. }
    unfold bind at 1. unfold try_finally.
    match goal with
    | |- context [try_except ?body ?h ?w0] =>
        destruct (swallowed body Hfin w0) as (w1 & Hbody);
        change (try_except body h w0) with (try_except body (fun _ => ret tt) w0)
    end.
    rewrite Hbody.
    destruct (release_if_owned_spec (lock_beat_key run) w1) as (w2 & -> & Hown).
    by exists w2.
Qed.

(** Events of the beat task. *)

Lemma emits_silent {A} P (m : M A) : (∀ w, trace (m w).2 = trace w) → emits P m.
Proof.
  intros H w res w' Hrun. exists []. specialize (H w). rewrite Hrun in H.
  cbn in H. by rewrite app_nil_r.
Qed.

Lemma emits_ret {A} P (a : A) : emits P (ret a).
Proof. by apply emits_silent. Qed.

Lemma emits_raise {A} P e : emits P (@raise A e).
Proof. by apply emits_silent. Qed.

Lemma emits_emit P e : P e → emits P (emit e).
Proof.
  intros He w res w' [= <- <-]. exists [e]. split; [done|]. by apply Forall_singleton.
Qed.

Lemma emits_bind {A B} P (m : M A) (k : A → M B) :
  emits P m → (∀ a, emits P (k a)) → emits P (bind m k).
Proof.
  intros Hm Hk w res w' Hrun. unfold bind in Hrun.
  destruct (m w) as [[a|e|] w1] eqn:Hmw;
    destruct (Hm _ _ _ Hmw) as (evs1 & Htr1 & HP1).
  - destruct (Hk a _ _ _ Hrun) as (evs2 & Htr2 & HP2).
    exists (evs1 ++ evs2). rewrite Htr2, Htr1, app_assoc. split; [done|].
    by apply Forall_app.
  - injection Hrun as <- <-. by exists evs1.
  - injection Hrun as <- <-. by exists evs1.
Qed.

Lemma emits_try_except {A} P (m : M A) h :
  emits P m → (∀ e, emits P (h e)) → emits P (try_except m h).
Proof.
  intros Hm Hh w res w' Hrun. unfold try_except in Hrun.
  destruct (m w) as [[a|e|] w1] eqn:Hmw;
    destruct (Hm _ _ _ Hmw) as (evs1 & Htr1 & HP1).
  - injection Hrun as <- <-. by exists evs1.
  - destruct (Hh e _ _ _ Hrun) as (evs2 & Htr2 & HP2).
    exists (evs1 ++ evs2). rewrite Htr2, Htr1, app_assoc. split; [done|].
    by apply Forall_app.
  - injection Hrun as <- <-. by exists evs1.
Qed.

Lemma emits_try_finally {A} P (m : M A) f :
  emits P m → emits P f → emits P (try_finally m f).
Proof.
  intros Hm Hf w res w' Hrun. unfold try_finally in Hrun.
  destruct (m w) as [r w1] eqn:Hmw.
  destruct (Hm _ _ _ Hmw) as (evs1 & Htr1 & HP1).
  destruct r as [a|e|]; [| |injection Hrun as <- <-; by exists evs1];
    destruct (f w1) as [r2 w2] eqn:Hfw;
    destruct (Hf _ _ _ Hfw) as (evs2 & Htr2 & HP2);
    (exists (evs1 ++ evs2); split; [|by apply Forall_app]);
    destruct r2 as [[]|e2|]; injection Hrun as <- <-;
    by rewrite Htr2, Htr1, app_assoc.
Qed.

Lemma emits_bind_ret {A B} P (a : A) (k : A → M B) :
  emits P (k a) → emits P (bind (ret a) k).
Proof. intros Hk w res w' Hrun. by apply (Hk w res w'). Qed.

Ltac em_step :=
  first
    [ apply emits_ret | apply emits_raise
    | apply emits_bind; [|intros ?]
    | apply emits_try_except; [|intros ?]
    | apply emits_try_finally
    | apply emits_emit
    | by apply emits_silent
    | match goal with
      | |- emits _ (if ?b then _ else _) => destruct b
      | |- emits _ (match ?x with _ => _ end) => destruct x
      | |- emits _ (let '(_, _) := ?x in _) => destruct x
      end ].

Ltac em := repeat em_step.

Lemma emits_try_creating gtk env cc ids :
  cc ∈ ids → emits (sends_only_for ids) (try_creating_permissions_sync_task gtk env cc).
Proof.
  intros Hin.
  unfold try_creating_permissions_sync_task, lock_acquire_blocking, lock_take,
    fenced, delete_fenced, prune_fenced, exists_key, generator_clear, taskset_clear,
    insert_sync_record, set_active, set_fence, send_task, call, release_if_owned,
    lock_owned, lock_release, get_redis, advance_clock, modify_redis, enqueue.
  em; done.
Qed.

Lemma emits_validate_fence P key q r :
  (∀ cc, P (ESetActive cc)) → (∀ cc, P (EReset cc)) →
  emits P (validate_permission_sync_fence key q r).
Proof.
  intros Ha Hr.
  unfold validate_permission_sync_fence, fenced, payload, exists_key, set_active,
    active, reset, celery_find_task, get_redis, modify_redis.
  em; done.
Qed.

Lemma emits_lock_reacquire P k : P (ELockReacquire k) → emits P (lock_reacquire k).
Proof. intros H. unfold lock_reacquire, lock_owned, get_redis. em; done. Qed.

Lemma emits_validate_fences P insp keys lock_beat :
  (∀ cc, P (ESetActive cc)) → (∀ cc, P (EReset cc)) → P (ELockReacquire lock_beat) →
  emits P (validate_permission_sync_fences insp keys lock_beat).
Proof.
  intros Ha Hr Hl. unfold validate_permission_sync_fences.
  assert (emits P (validate_fences_loop insp lock_beat keys)) as Hloop.
  { induction keys as [|key rest IH]; cbn [validate_fences_loop]; [em|].
    destruct (negb (is_permission_fence_key key)); [done|].
    apply emits_bind; [by apply emits_validate_fence|intros _].
    apply emits_bind; [by apply emits_lock_reacquire|by intros _]. }
  case_bool_decide; [em|].
  apply emits_bind; [by apply emits_lock_reacquire|by intros _].
Qed.

Lemma emits_monitor ids env key :
  emits (sends_only_for ids) (monitor_ccpair_permissions_taskset env key).
Proof.
  unfold monitor_ccpair_permissions_taskset, fenced, generator_complete, payload,
    get_remaining, optional_telemetry, mark_cc_pair_as_permissions_synced,
    update_sync_record_status, reset, exists_key, call, get_redis, modify_redis.
  em; done.
Qed.

Lemma emits_monitor_loop ids env keys :
  emits (sends_only_for ids) (monitor_loop env keys).
Proof.
  induction keys as [|key rest IH]; cbn [monitor_loop]; [em|].
  apply emits_bind; [unfold exists_key, get_redis; em|intros present].
  destruct (negb present).
  - apply emits_bind; [by apply emits_silent|by intros _].
  - apply emits_bind; [|by intros _].
    destruct (is_permission_fence_key key); [apply emits_monitor|em].
Qed.

Lemma emits_creation_loop gtk run all ids :
  ids ⊆ all → ∀ n, emits (sends_only_for all) (creation_loop gtk run n ids).
Proof.
  induction ids as [|cc rest IH]; intros Hsub n; cbn [creation_loop]; [em|].
  apply emits_bind.
  - apply emits_try_creating. apply Hsub. apply list_elem_of_here.
  - intros _. apply IH. intros x Hx. apply Hsub. by apply list_elem_of_further.
Qed.

Lemma cc_pair_ids_to_sync_due registry run cc_pairs :
  ∀ n cc, cc ∈ cc_pair_ids_to_sync registry run n cc_pairs →
    ∃ i cc_pair,
      cc_pairs !! i = Some cc_pair
      ∧ cc_pair_id cc_pair = cc
      ∧ _is_external_doc_permissions_sync_due registry (due_clock run (n + i))
          (due_multiplier run (n + i)) cc_pair = true.
Proof.
  induction cc_pairs as [|p rest IH]; intros n cc Hin; cbn in Hin.
  - by apply not_elem_of_nil in Hin.
  - destruct (_is_external_doc_permissions_sync_due registry (due_clock run n)
                (due_multiplier run n) p) eqn:Hdue.
    + apply elem_of_cons in Hin as [->|Hin].
      * exists 0%nat, p. by rewrite Nat.add_0_r.
      * apply IH in Hin as (i & q & Hi & Hq & Hd). exists (S i), q.
        by rewrite Nat.add_succ_r.
    + apply IH in Hin as (i & q & Hi & Hq & Hd). exists (S i), q.
      by rewrite Nat.add_succ_r.
Qed.

(** X27.  The beat task sends a generator task only for a pair that
    [get_all_auto_sync_cc_pairs] returned and that the due check accepted
    with the clock and multiplier read for it: every [send_task] of a run,
    however the run ends, is for such a pair. *)
Theorem check_for_doc_permissions_sync_sends_for_due_pairs registry gtk (run : BeatRun)
    (w : World) res (w' : World) :
  check_for_doc_permissions_sync registry gtk run w = (res, w') →
  ∃ evs,
    trace w' = trace w ++ evs
    ∧ ∀ task_id cc, ESendTask task_id cc ∈ evs → found_due registry run cc.
Proof.
  intros Hrun.
  set (ids := match auto_sync_cc_pairs run with
              | inl _ => []
              | inr cc_pairs => cc_pair_ids_to_sync registry run 0 cc_pairs
              end).
  assert (emits (sends_only_for ids) (check_for_doc_permissions_sync registry gtk run))
    as Hem.
  { unfold check_for_doc_permissions_sync. cbv zeta.
    apply emits_bind.
    { unfold lock_acquire_nonblocking, lock_take, get_redis, modify_redis. em; done. }
    intros acquired. destruct (negb acquired); [em|].
    apply emits_bind; [|intros ?; em].
    apply emits_try_finally;
      [|unfold release_if_owned, lock_owned, lock_release, get_redis, modify_redis;
        em; done].
    apply emits_try_except; [|intros ?; em].
    subst ids. destruct (auto_sync_cc_pairs run) as [e|cc_pairs];
      [by apply emits_silent|].
    apply emits_bind_ret.
    apply emits_bind; [by apply emits_silent|intros _].
    apply emits_bind; [by apply emits_lock_reacquire|intros _].
    apply emits_bind; [by apply emits_creation_loop|intros _].
    apply emits_bind; [by apply emits_silent|intros _].
    apply emits_bind; [by apply emits_lock_reacquire|intros _].
    apply emits_bind; [by apply emits_silent|intros blocked].
    apply emits_bind.
    { destruct (negb blocked); [|em].
      apply emits_bind; [|by intros ?; apply emits_silent].
      apply emits_try_except; [by apply emits_validate_fences|intros ?; em]. }
    intros _.
    apply emits_bind; [by apply emits_silent|intros _].
    apply emits_bind; [by apply emits_lock_reacquire|intros _].
    apply emits_monitor_loop. }
  destruct (Hem _ _ _ Hrun) as (evs & Htr & HP).
  exists evs. split; [done|]. intros task_id cc Hin.
  rewrite Forall_forall in HP. specialize (HP _ Hin). cbn in HP.
  subst ids. destruct (auto_sync_cc_pairs run) as [e|cc_pairs] eqn:Hpairs.
  - by apply not_elem_of_nil in HP.
  - apply cc_pair_ids_to_sync_due in HP as (i & cc_pair & Hi & Hcc & Hdue).
    by exists cc_pairs, i, cc_pair.
Qed.

(** The lookup table of active fences. *)

Lemma narrows_refl r : narrows r r.
Proof. by intros k _ Hk. Qed.

Lemma narrows_trans r1 r2 r3 : narrows r1 r2 → narrows r2 r3 → narrows r1 r3.
Proof.
  intros H12 H23 k Hf Hk. destruct (H23 k Hf Hk) as [Hk2 E23].
  destruct (H12 k Hf Hk2) as [Hk1 E12]. split; [done|congruence].
Qed.

Lemma srem_members_inv m (r : Redis) k :
  k ∈ active_fences_members (srem ActiveFencesKey m r) →
  k ∈ active_fences_members r ∧ k ≠ m.
Proof.
  unfold active_fences_members, srem.
  destruct (r !! ActiveFencesKey) as [[]|] eqn:E; try (rewrite E);
    try (by intros ?%not_elem_of_empty).
  rewrite lookup_insert_eq. intros [Hk Hm]%elem_of_difference. split; [done|].
  intros ->. by apply Hm, elem_of_singleton.
Qed.

Lemma narrows_srem m r : narrows r (srem ActiveFencesKey m r).
Proof.
  intros k Hf Hk. apply srem_members_inv in Hk as [Hk _]. split; [done|].
  apply srem_lookup_ne. intros <-. by destruct Hf.
Qed.

Lemma reset_keys_members cc (r : Redis) k :
  k ∈ active_fences_members (reset_keys cc r) →
  k ∈ active_fences_members r ∧ k ≠ FenceKey cc.
Proof.
  unfold reset_keys, active_fences_members at 1.
  rewrite !lookup_delete_ne by done. apply srem_members_inv.
Qed.

Lemma narrows_reset cc r : narrows r (reset_keys cc r).
Proof.
  intros k Hf Hk. apply reset_keys_members in Hk as [Hk Hne]. split; [done|].
  apply reset_keys_lookup. intros [->|[->|[->|[->| ->]]]]; try done; by destruct Hf.
Qed.

Lemma monitor_redis env key w res w' :
  monitor_ccpair_permissions_taskset env key w = (res, w') →
  redis w' = redis w
  ∨ ∃ cc, get_id_from_fence_key key = Some cc ∧ res = Ok tt
          ∧ redis w' = reset_keys cc (redis w).
Proof.
  unfold monitor_ccpair_permissions_taskset.
  destruct (get_id_from_fence_key key) as [cc|]; [|intros [= <- <-]; by left].
  unfold_m.
  destruct (bool_decide (is_Some (redis w !! FenceKey cc))); msimpl;
    [|intros [= <- <-]; by left].
  destruct (generator_complete_value cc (redis w)); msimpl;
    [|intros [= <- <-]; by left].
  destruct (fence_state_of cc (redis w)); msimpl; try (intros [= <- <-]; by left).
  case_bool_decide; msimpl; [intros [= <- <-]; by left|].
  destruct (faults env (EMarkSynced _ _)); msimpl; [intros [= <- <-]; by left|].
  destruct (faults env (EUpdateSyncRecord _ _ _ _)); msimpl;
    [intros [= <- <-]; by left|].
  intros [= <- <-]. right. by exists cc.
Qed.

Lemma exists_key_run k w :
  exists_key k w = (Ok (bool_decide (is_Some (redis w !! k))), w).
Proof. done. Qed.

Lemma monitor_loop_narrows env keys :
  ∀ w res w', monitor_loop env keys w = (res, w') → narrows (redis w) (redis w').
Proof.
  induction keys as [|key rest IH]; intros w res w' Hrun; cbn [monitor_loop] in Hrun.
  - injection Hrun as <- <-. apply narrows_refl.
  - unfold bind at 1 in Hrun. rewrite exists_key_run in Hrun.
    destruct (bool_decide (is_Some (redis w !! key))); cbn [negb] in Hrun.
    + unfold bind at 1 in Hrun.
      destruct (is_permission_fence_key key).
      * destruct (monitor_ccpair_permissions_taskset env key w) as [r1 w1] eqn:Hm.
        assert (narrows (redis w) (redis w1)) as Hn1.
        { apply monitor_redis in Hm as [->|(cc & _ & _ & ->)];
            [apply narrows_refl|apply narrows_reset]. }
        destruct r1 as [[]|e|]; try (injection Hrun as <- <-; exact Hn1).
        eapply narrows_trans; [exact Hn1|by eapply IH].
      * unfold ret in Hrun. by eapply IH.
    + unfold bind at 1, modify_redis in Hrun.
      eapply narrows_trans; [|by eapply IH]. msimpl. apply narrows_srem.
Qed.

(** X28.  The pass of the beat task over [active_fences] repairs the lookup
    table: when the pass over a list of fence keys completes, every key of
    the list that is still a member of [active_fences] exists in Redis.
    Members whose key is gone are removed, and a fence the monitor resets
    leaves the set together with its key. *)
Theorem monitor_loop_lookup_table (env : Env) (keys : list redis_key) :
  Forall (fun k => is_Some (get_id_from_fence_key k)) keys →
  ∀ w w',
    monitor_loop env keys w = (Ok tt, w') →
    lookup_consistent keys (redis w').
Proof.
  induction keys as [|key rest IH]; intros Hkeys w w' Hrun k Hin Hmem.
  { by apply not_elem_of_nil in Hin. }
  apply Forall_cons in Hkeys as [Hkey Hrest].
  cbn [monitor_loop] in Hrun.
  unfold bind at 1 in Hrun. rewrite exists_key_run in Hrun.
  destruct (bool_decide (is_Some (redis w !! key))) eqn:Hpresent; cbn [negb] in Hrun.
  - unfold bind at 1 in Hrun.
    destruct ((if is_permission_fence_key key
               then monitor_ccpair_permissions_taskset env key else ret tt) w)
      as [r1 w1] eqn:Hm.
    destruct r1 as [[]|e|]; try done.
    apply elem_of_cons in Hin as [->|Hin]; [|by eapply (IH Hrest w1 w')].
    destruct (monitor_loop_narrows _ _ _ _ _ Hrun key Hkey Hmem) as [Hmem1 ->].
    apply bool_decide_eq_true in Hpresent.
    destruct (is_permission_fence_key key) eqn:Hperm; [|by injection Hm as <-].
    apply monitor_redis in Hm as [->|(cc & Hcc & _ & Hr)]; [done|].
    rewrite Hr in Hmem1. apply reset_keys_members in Hmem1 as [_ Hne].
    destruct key; try done. cbn in Hcc. congruence.
  - unfold bind at 1, modify_redis in Hrun.
    apply elem_of_cons in Hin as [->|Hin]; [|by eapply (IH Hrest _ w')].
    destruct (monitor_loop_narrows _ _ _ _ _ Hrun key Hkey Hmem) as [Hmem1 _].
    msimpl. by apply srem_members in Hmem1.
Qed.

Lemma permission_sync_callback_heartbeat_witness :
  ∃ evs,
    trace (sync_loop 120 quiet_env 7 slow_producer fresh_callback 0 syncing_world).2
    = trace syncing_world ++ evs
    ∧ 120 * 1000000 * Z.of_nat (count_of is_reacquire evs) <= 4 * 31000000
    ∧ count_of is_set_active evs = 2%nat.
Proof.
  destruct (permission_sync_callback_heartbeat 120 quiet_env 7 slow_producer
              fresh_callback 0 syncing_world
              (sync_loop 120 quiet_env 7 slow_producer fresh_callback 0 syncing_world).1
              (sync_loop 120 quiet_env 7 slow_producer fresh_callback 0 syncing_world).2)
    as (evs & Htr & _ & Hrate & Hactive).
  - by vm_compute.
  - apply surjective_pairing.
  - exists evs. split; [exact Htr|]. split; [exact Hrate|].
    apply (Hactive 1). reflexivity.
Defined.

Lemma check_for_doc_permissions_sync_outcome_witness :
  check_for_doc_permissions_sync sample_registry sample_task_key sample_beat_run
    beat_world = (Ok None, beat_world)
  ∧ ∃ w',
      check_for_doc_permissions_sync sample_registry sample_task_key sample_beat_run
        crashed_world = (Ok (Some true), w')
      ∧ lock_owned_in sample_beat_lock (redis w') = false.
Proof.
  split.
  - apply (proj1 (check_for_doc_permissions_sync_outcome sample_registry
                    sample_task_key sample_beat_run beat_world)).
    eexists. vm_compute. reflexivity.
  - apply (proj2 (check_for_doc_permissions_sync_outcome sample_registry
                    sample_task_key sample_beat_run crashed_world)).
    reflexivity.
Defined.

Lemma check_for_doc_permissions_sync_sends_for_due_pairs_witness :
  ∃ evs,
    trace (check_for_doc_permissions_sync sample_registry sample_task_key
             sample_beat_run empty_world).2 = trace empty_world ++ evs
    ∧ ∀ task_id cc, ESendTask task_id cc ∈ evs →
                    found_due sample_registry sample_beat_run cc.
Proof.
  apply (check_for_doc_permissions_sync_sends_for_due_pairs sample_registry
           sample_task_key sample_beat_run empty_world
           (check_for_doc_permissions_sync sample_registry sample_task_key
              sample_beat_run empty_world).1).
  apply surjective_pairing.
Defined.

Lemma monitor_loop_lookup_table_witness :
  lookup_consistent [FenceKey 7; FenceKey 9]
    (redis (monitor_loop quiet_env [FenceKey 7; FenceKey 9] stale_lookup_world).2).
Proof.
  apply (monitor_loop_lookup_table quiet_env [FenceKey 7; FenceKey 9]) with
    (w := stale_lookup_world).
  - repeat constructor; by eexists.
  - vm_compute. reflexivity.
Defined.

(** ** ACL upserter: what a successful call has done *)

Section UpserterProperties.

Context (is_retryable : exn → bool).



End UpserterProperties.


(** ** The fence between its writer and its readers *)

Lemma task_id_not_empty (prefix suffix : string) : prefix +:+ "_" +:+ suffix ≠ "".
Proof. by destruct prefix. Qed.

Lemma try_creating_created gtk env cc w id w' :
  try_creating_permissions_sync_task gtk env cc w = (Ok (Some id), w') →
  let task_id := gtk cc +:+ "_" +:+ uuid4 env in
  id = make_short_id env
  ∧ fence_state_of cc (redis w') = FenceParsed (creation_payload env (Some task_id))
  ∧ task_id ∈ celery_queue w'
  ∧ generator_complete_value cc (redis w') = None.
Proof.
  intros Hrun task_id.
  destruct (decide (lock_available env (redis w))) as [Hav|Hav].
  2:{ rewrite try_creating_lock_timeout in Hrun by done. done. }
  destruct (decide (any_fence cc (redis w))) as [Hf|Hf].
  { rewrite try_creating_fenced in Hrun by done. done. }
  pose proof (try_creating_unfenced gtk env cc w Hav Hf) as Heq. cbv zeta in Heq.
  rewrite Heq in Hrun. clear Heq.
  destruct (faults env (ESendTask _ cc)); [done|].
  injection Hrun as <- <-.
  destruct (created_fence_state cc (creation_payload env (Some task_id))
              (creation_payload env None) (redis w))
    as [(H1 & H2 & H3 & H4 & H5 & H6) _]; msimpl.
  repeat split; try done. apply elem_of_union_l, elem_of_singleton. done.
Qed.

Lemma wait_for_fence_ready TIMEOUT env cc w p fuel :
  fence_state_of cc (redis w) = FenceParsed p →
  is_Some (celery_task_id p) →
  0 <= TIMEOUT →
  wait_for_fence TIMEOUT env cc (monotonic w) (S fuel) 0 w = (Ok p, w).
Proof.
  intros Hst [t Ht] Hto. cbn [wait_for_fence]. unfold_m.
  rewrite bool_decide_eq_false_2 by lia.
  rewrite (fenced_parsed _ _ _ Hst). msimpl. rewrite Hst. msimpl. by rewrite Ht.
Qed.

(** X30.  Writer and readers of the fence agree.  Once
    [try_creating_permissions_sync_task] has returned a payload id, and
    before anything else touches Redis or the queue, every reader accepts
    the fence it wrote: the validator renews the active signal instead of
    resetting the fence, because the generator task is in the queue; the
    monitor leaves the fence alone, because the generator has not
    completed; and the wait of the generator task finds the fence ready at
    its first poll, without sleeping, with the payload id that was returned
    and the id of the queued task. *)
Theorem created_fence_is_accepted gtk (env : Env) (cc : Z) (w : World) (id : string)
    (w' : World) :
  try_creating_permissions_sync_task gtk env cc w = (Ok (Some id), w') →
  (∀ queued_tasks reserved_tasks,
     validate_permission_sync_fence (FenceKey cc) queued_tasks reserved_tasks w'
     = (Ok tt, after_set_active cc w'))
  ∧ (∀ env', monitor_ccpair_permissions_taskset env' (FenceKey cc) w' = (Ok tt, w'))
  ∧ (∀ TIMEOUT env' fuel,
       0 <= TIMEOUT →
       ∃ p, wait_for_fence TIMEOUT env' cc (monotonic w') (S fuel) 0 w' = (Ok p, w')
            ∧ payload_id p = id
            ∧ (∃ task_id, celery_task_id p = Some task_id ∧ task_id ∈ celery_queue w')).
Proof.
  intros Hrun.
  destruct (try_creating_created _ _ _ _ _ _ Hrun) as (Hid & Hst & Hq & Hg).
  split; [|split].
  - intros queued_tasks reserved_tasks.
    eapply validate_fence_with_task_id; [done|exact Hst|done|apply task_id_not_empty|].
    left. by left.
  - intros env'. by apply (monitor_quiet env' (FenceKey cc) cc).
  - intros TIMEOUT env' fuel Hto. eexists. split.
    + apply wait_for_fence_ready; [exact Hst|by eexists|done].
    + split; [by rewrite Hid|]. by eexists.
Qed.

Lemma created_fence_is_accepted_witness :
  ∃ w',
    try_creating_permissions_sync_task sample_task_key quiet_env 7 empty_world
    = (Ok (Some (make_short_id quiet_env)), w')
    ∧ validate_permission_sync_fence (FenceKey 7) ∅ ∅ w' = (Ok tt, after_set_active 7 w')
    ∧ monitor_ccpair_permissions_taskset quiet_env (FenceKey 7) w' = (Ok tt, w')
    ∧ ∃ p, wait_for_fence 300 quiet_env 7 (monotonic w') 1 0 w' = (Ok p, w')
           ∧ payload_id p = make_short_id quiet_env.
Proof.
  assert (try_creating_permissions_sync_task sample_task_key quiet_env 7 empty_world
          = (Ok (Some (make_short_id quiet_env)),
             (try_creating_permissions_sync_task sample_task_key quiet_env 7
                empty_world).2)) as Hrun.
  { vm_compute. reflexivity. }
  eexists. split; [exact Hrun|].
  destruct (created_fence_is_accepted sample_task_key quiet_env 7 empty_world
              (make_short_id quiet_env) _ Hrun) as (Hv & Hm & Hw).
  split; [exact (Hv ∅ ∅)|]. split; [exact (Hm quiet_env)|].
  destruct (Hw 300 quiet_env 0%nat) as (p & Hwait & Hid & _); [lia|].
  exists p. split; [exact Hwait|exact Hid].
Defined.
